(** * Group-driven membership reconciliation: app/syncables.go

    A shallow embedding of the three operations of [app/syncables.go]
    ([CreateDefaultMemberships], [DeleteGroupConstrainedMemberships] and
    [SyncSyncableRoles]) and the properties the specification states about
    them.

    The three Go methods do nothing but call collaborators of the [App]
    (store queries, add/remove/update commands, the logger) and branch on
    their replies.  They are embedded as command trees: a program is either
    a return or a call together with the continuation that receives the
    reply.  A tree is run against any implementation of the collaborators
    ([handler]); the run threads the implementation's state and records the
    calls with their replies, in the order in which they were issued. *)

From Stdlib Require Import ZArith String List Ascii.
From stdpp Require Import base gmap strings list.

Local Open Scope Z_scope.
Local Open Scope string_scope.
Local Open Scope list_scope.

(** ** Data model *)

(** [*model.AppError]: the fields of the error value that the source reads
    ([Id]) or that [model.NewAppError] fills in. *)
Module AppError.
Record t := Build {
  Id : string;
  Where : string;
  DetailedError : string;
  StatusCode : Z;
  params : list (string * string)
}.
End AppError.

(** A Go [error] / [*model.AppError] result: [None] is [nil]. *)
Abbreviation error := (option AppError.t).

Module http.
Definition StatusInternalServerError : Z := 500.
End http.

(** [model.UserTeamIDPair], the element type of [TeamMembersToAdd]. *)
Module UserTeamIDPair.
Record t := Build { UserID : string; TeamID : string }.
End UserTeamIDPair.

(** [model.UserChannelIDPair], the element type of [ChannelMembersToAdd]. *)
Module UserChannelIDPair.
Record t := Build { UserID : string; ChannelID : string }.
End UserChannelIDPair.

(** [model.Channel]: its identifier and the identifier of the owning team. *)
Module Channel.
Record t := Build { Id : string; TeamId : string }.
End Channel.

(** [model.TeamMember]: a (team, user) membership with its admin flag. *)
Module TeamMember.
Record t := Build { TeamId : string; UserId : string; SchemeAdmin : bool }.
End TeamMember.

(** [model.ChannelMember]: a (channel, user) membership with its admin flag. *)
Module ChannelMember.
Record t := Build { ChannelId : string; UserId : string; SchemeAdmin : bool }.
End ChannelMember.

Module model.
(** Modelled from the spec: the declaration of [model.GroupSyncableType]
    is outside the source file.  The specification names the two supported
    variants Team and Channel, the source formats a value with [%s] and
    must be able to receive a value that is neither, so the type is taken
    to be a string with the two variant names as constants. *)
Definition GroupSyncableType := string.
Definition GroupSyncableTypeTeam : GroupSyncableType := "Team".
Definition GroupSyncableTypeChannel : GroupSyncableType := "Channel".

(** Modelled from the spec: [model.NewAppError where id params details
    status] is outside the source file; it builds the error value from
    its arguments.  The only parameter the source ever passes is
    ["Value"], bound to the syncable type. *)
Definition NewAppError (where_ id : string) (params : list (string * string))
    (details : string) (status : Z) : AppError.t :=
  AppError.Build id where_ details status params.
End model.

Module store.
(** [store.Equality], the mode argument of [UpdateMembersRole]. *)
Inductive Equality := Equals | NotEquals.

(** The two stores that implement [UpdateMembersRole] with one signature:
  [a.Srv.Store.Team()] and [a.Srv.Store.Channel()]. *)
Inductive Syncable := Team | Channel.
End store.

Module mlog.
(** The structured fields handed to the logger: [mlog.String key val] and
    [mlog.Any key val] (the latter only ever carries the list of permitted
    admins). *)
Inductive Field :=
| String (key val : string)
| Any (key : string) (val : list string).
End mlog.

Module strings.
Definition lower (a : ascii) : ascii :=
  let n := N_of_ascii a in
  if ((65 <=? n) && (n <=? 90))%N then ascii_of_N (n + 32) else a.

(** [strings.ToLower] on the ASCII letters (other bytes are kept). *)
Fixpoint ToLower (s : string) : string :=
  match s with
  | EmptyString => EmptyString
  | String.String a s' => String.String (lower a) (ToLower s')
  end.
End strings.

(** The error identifiers the source compares against. *)
Definition team_member_missing_id : string :=
  "store.sql_team.get_member.missing.app_error".
Definition add_channel_member_deleted_id : string :=
  "api.channel.add_user.to.channel.failed.deleted.app_error".
Definition unsupported_syncable_type_id : string :=
  "groups.unsupported_syncable_type".

(** ** Collaborator calls

    One constructor per method that the source invokes on the [App], on its
    stores or on its logger; [reply] gives the type of what the method hands
    back.  A Go pair [(value, err)] whose value the source discards is
    reduced to the error; [GetChannel] replies with the channel or with the
    error (the source dereferences the channel whenever the error is nil);
    [GetTeamMember] keeps both components because the source tests them
    separately.  [UpdateMembersRole s] is the method of that name of the
    store [s]; [LogInfo] is [a.Log.Info], the informational level of the
    logger. *)
Inductive call : Type :=
| TeamMembersToAdd (since : Z)
| ChannelMembersToAdd (since : Z)
| AddTeamMember (teamID userID : string)
| GetChannel (channelID : string)
| GetTeamMember (teamID userID : string)
| AddChannelMember (userID : string) (channel : Channel.t)
    (userRequestorID postRootID : string)
| ChannelMembersToRemove
| TeamMembersToRemove
| RemoveUserFromChannel (userIDToRemove removerUserID : string)
    (channel : Channel.t)
| RemoveUserFromTeam (teamID userID requestorID : string)
| PermittedSyncableAdmins (syncableID : string)
    (syncableType : model.GroupSyncableType)
| UpdateMembersRole (s : store.Syncable) (syncableID : string)
    (userIDs : list string) (idEquality : store.Equality) (value : bool)
| LogInfo (msg : string) (fields : list mlog.Field).

Definition reply (c : call) : Type :=
  match c with
  | TeamMembersToAdd _ => list UserTeamIDPair.t * error
  | ChannelMembersToAdd _ => list UserChannelIDPair.t * error
  | AddTeamMember _ _ => error
  | GetChannel _ => AppError.t + Channel.t
  | GetTeamMember _ _ => option TeamMember.t * error
  | AddChannelMember _ _ _ _ => error
  | ChannelMembersToRemove => list ChannelMember.t * error
  | TeamMembersToRemove => list TeamMember.t * error
  | RemoveUserFromChannel _ _ _ => error
  | RemoveUserFromTeam _ _ _ => error
  | PermittedSyncableAdmins _ _ => list string * error
  | UpdateMembersRole _ _ _ _ _ => error
  | LogInfo _ _ => unit
  end%type.

(** A call together with the reply it received. *)
Inductive event : Type :=
| Event (c : call) (x : reply c).

(** ** Programs *)

Inductive prog (R : Type) : Type :=
| Ret (r : R)
| Vis (c : call) (k : reply c -> prog R).
Arguments Ret {R} r.
Arguments Vis {R} c k.

Fixpoint bind {A B : Type} (m : prog A) (f : A -> prog B) : prog B :=
  match m with
  | Ret a => f a
  | Vis c k => Vis c (fun x => bind (k x) f)
  end.

Definition invoke (c : call) : prog (reply c) := Vis c Ret.

#[global] Instance prog_ret : MRet prog := @Ret.
#[global] Instance prog_bind : MBind prog := fun A B f m => bind m f.

(** [for _, x := range l { body }] where the body may leave the enclosing
    function with [return err]: the body yields [Some err] for such a
    return and [None] when it falls through to the next iteration. *)
Fixpoint for_range {A : Type} (l : list A) (body : A -> prog error) : prog error :=
  match l with
  | [] => Ret None
  | x :: l' =>
      r ← body x;
      match r with
      | Some err => Ret (Some err)
      | None => for_range l' body
      end
  end.

(** ** Running a program against an implementation of the collaborators *)

Definition handler (W : Type) : Type := forall c : call, W -> reply c * W.

Fixpoint run {W R : Type} (h : handler W) (p : prog R) (w : W)
    : R * W * list event :=
  match p with
  | Ret r => (r, w, [])
  | Vis c k =>
      let '(x, w1) := h c w in
      let '(r, w2, tr) := run h (k x) w1 in
      (r, w2, Event c x :: tr)
  end.

Definition result {W R : Type} (o : R * W * list event) : R := o.1.1.
Definition final {W R : Type} (o : R * W * list event) : W := o.1.2.
Definition trace {W R : Type} (o : R * W * list event) : list event := o.2.

(** The state an implementation is left in after it has served the calls
    of a trace, one after the other. *)
Fixpoint replay {W : Type} (h : handler W) (tr : list event) (w : W) : W :=
  match tr with
  | [] => w
  | Event c _ :: tr' => replay h tr' (h c w).2
  end.

(** ** The source functions *)

(** Lines 24-34: one iteration of the loop over [teamMembers]. *)
Definition addTeamMember_iteration (userTeam : UserTeamIDPair.t) : prog error :=
  err ← invoke (AddTeamMember (UserTeamIDPair.TeamID userTeam)
                              (UserTeamIDPair.UserID userTeam));
  match err with
  | Some _ => Ret err
  | None =>
      _ ← invoke (LogInfo "added teammember"
            [mlog.String "user_id" (UserTeamIDPair.UserID userTeam);
             mlog.String "team_id" (UserTeamIDPair.TeamID userTeam)]);
      Ret None
  end.

(** Line 48: [err != nil && err.Id != "store.sql_team.get_member.missing.app_error"]. *)
Definition get_member_failed (err : error) : bool :=
  match err with
  | Some e => negb (String.eqb (AppError.Id e) team_member_missing_id)
  | None => false
  end.

(** Line 66: [err.Id == "api.channel.add_user.to.channel.failed.deleted.app_error"],
    the one conflict that the channel loop tolerates. *)
Definition tolerated_conflict (e : AppError.t) : bool :=
  String.eqb (AppError.Id e) add_channel_member_deleted_id.

(** Lines 41-80: one iteration of the loop over [channelMembers]. *)
Definition addChannelMember_iteration (userChannel : UserChannelIDPair.t)
    : prog error :=
  r ← invoke (GetChannel (UserChannelIDPair.ChannelID userChannel));
  match r with
  | inl err => Ret (Some err)
  | inr channel =>
      '(tmem, err) ← invoke (GetTeamMember (Channel.TeamId channel)
                                           (UserChannelIDPair.UserID userChannel));
      if get_member_failed err then Ret err else
      (* First add user to team *)
      r ← match tmem with
          | None =>
              err ← invoke (AddTeamMember (Channel.TeamId channel)
                                          (UserChannelIDPair.UserID userChannel));
              match err with
              | Some _ => Ret err
              | None =>
                  _ ← invoke (LogInfo "added teammember"
                        [mlog.String "user_id" (UserChannelIDPair.UserID userChannel);
                         mlog.String "team_id" (Channel.TeamId channel)]);
                  Ret None
              end
          | Some _ => Ret None
          end;
      match r with
      | Some _ => Ret r
      | None =>
          err ← invoke (AddChannelMember (UserChannelIDPair.UserID userChannel)
                                         channel "" "");
          r ← match err with
              | Some e =>
                  if tolerated_conflict e
                  then
                    _ ← invoke (LogInfo
                          "Not adding user to channel because they have already left the team"
                          [mlog.String "user_id" (UserChannelIDPair.UserID userChannel);
                           mlog.String "channel_id" (UserChannelIDPair.ChannelID userChannel)]);
                    Ret None
                  else Ret err
              | None => Ret None
              end;
          match r with
          | Some _ => Ret r
          | None =>
              _ ← invoke (LogInfo "added channelmember"
                    [mlog.String "user_id" (UserChannelIDPair.UserID userChannel);
                     mlog.String "channel_id" (UserChannelIDPair.ChannelID userChannel)]);
              Ret None
          end
      end
  end.

(** [func (a *App) CreateDefaultMemberships(since int64) error] *)
Definition CreateDefaultMemberships (since : Z) : prog error :=
  '(teamMembers, appErr) ← invoke (TeamMembersToAdd since);
  match appErr with
  | Some _ => Ret appErr
  | None =>
      r ← for_range teamMembers addTeamMember_iteration;
      match r with
      | Some _ => Ret r
      | None =>
          '(channelMembers, appErr) ← invoke (ChannelMembersToAdd since);
          match appErr with
          | Some _ => Ret appErr
          | None =>
              r ← for_range channelMembers addChannelMember_iteration;
              match r with
              | Some _ => Ret r
              | None => Ret None
              end
          end
      end
  end.

(** Lines 93-108: one iteration of the loop over the channel members to
    remove. *)
Definition removeChannelMember_iteration (userChannel : ChannelMember.t)
    : prog error :=
  r ← invoke (GetChannel (ChannelMember.ChannelId userChannel));
  match r with
  | inl err => Ret (Some err)
  | inr channel =>
      err ← invoke (RemoveUserFromChannel (ChannelMember.UserId userChannel)
                                          "" channel);
      match err with
      | Some _ => Ret err
      | None =>
          _ ← invoke (LogInfo "removed channelmember"
                [mlog.String "user_id" (ChannelMember.UserId userChannel);
                 mlog.String "channel_id" (Channel.Id channel)]);
          Ret None
      end
  end.

(** Lines 115-125: one iteration of the loop over the team members to
    remove. *)
Definition removeTeamMember_iteration (userTeam : TeamMember.t) : prog error :=
  err ← invoke (RemoveUserFromTeam (TeamMember.TeamId userTeam)
                                   (TeamMember.UserId userTeam) "");
  match err with
  | Some _ => Ret err
  | None =>
      _ ← invoke (LogInfo "removed teammember"
            [mlog.String "user_id" (TeamMember.UserId userTeam);
             mlog.String "team_id" (TeamMember.TeamId userTeam)]);
      Ret None
  end.

(** [func (a *App) DeleteGroupConstrainedMemberships() error] *)
Definition DeleteGroupConstrainedMemberships : prog error :=
  '(channelMembers, appErr) ← invoke ChannelMembersToRemove;
  match appErr with
  | Some _ => Ret appErr
  | None =>
      r ← for_range channelMembers removeChannelMember_iteration;
      match r with
      | Some _ => Ret r
      | None =>
          '(teamMembers, appErr) ← invoke TeamMembersToRemove;
          match appErr with
          | Some _ => Ret appErr
          | None =>
              r ← for_range teamMembers removeTeamMember_iteration;
              match r with
              | Some _ => Ret r
              | None => Ret None
              end
          end
      end
  end.

(** The method values [a.Srv.Store.Team().UpdateMembersRole] and
    [a.Srv.Store.Channel().UpdateMembersRole], of the common type
    [func(string, []string, store.Equality, bool) *model.AppError]. *)
Definition Team_UpdateMembersRole (id : string) (userIDs : list string)
    (idEquality : store.Equality) (value : bool) : prog error :=
  invoke (UpdateMembersRole store.Team id userIDs idEquality value).
Definition Channel_UpdateMembersRole (id : string) (userIDs : list string)
    (idEquality : store.Equality) (value : bool) : prog error :=
  invoke (UpdateMembersRole store.Channel id userIDs idEquality value).

(** Lines 144-153: the [switch] that selects the role-update method of the
    team store or of the channel store; [None] is the [default] branch. *)
Definition select_updateFunc (syncableType : model.GroupSyncableType)
    : option (string -> list string -> store.Equality -> bool -> prog error) :=
  if String.eqb syncableType model.GroupSyncableTypeTeam
  then Some Team_UpdateMembersRole
  else if String.eqb syncableType model.GroupSyncableTypeChannel
  then Some Channel_UpdateMembersRole
  else None.

(** [func (a *App) SyncSyncableRoles(syncableID string,
      syncableType model.GroupSyncableType) *model.AppError] *)
Definition SyncSyncableRoles (syncableID : string)
    (syncableType : model.GroupSyncableType) : prog error :=
  '(permittedAdmins, err) ← invoke (PermittedSyncableAdmins syncableID syncableType);
  match err with
  | Some _ => Ret err
  | None =>
      _ ← invoke (LogInfo ("Permitted admins for " +:+ syncableType)
            [mlog.String (strings.ToLower (syncableType +:+ "_id")) syncableID;
             mlog.Any "permitted_admins" permittedAdmins]);
      match select_updateFunc syncableType with
      | None =>
          Ret (Some (model.NewAppError "App.SyncSyncableRoles"
                       unsupported_syncable_type_id
                       [("Value", syncableType)] ""
                       http.StatusInternalServerError))
      | Some updateFunc =>
          err ← updateFunc syncableID permittedAdmins store.Equals true;
          match err with
          | Some _ => Ret err
          | None =>
              err ← updateFunc syncableID permittedAdmins store.NotEquals false;
              match err with
              | Some _ => Ret err
              | None => Ret None
              end
          end
      end
  end.

(** ** A reference store

    The collaborators themselves (the stores, the lower-level add and remove
    operations, the logger) are outside the source file.  [Store.serve]
    implements each of them as the specification describes it, over an
    explicit state of memberships. *)
Module Store.

(** Modelled from the spec: the state behind the persistence boundary.
    Memberships are (syncable, user) pairs with a boolean admin flag
    (section 3); a channel references its owning team; the sets of pairs
    to add or remove and the permitted admins are decisions "already
    computed" that the core only consumes (sections 1 and 6), so they are
    given with the world; [faults] fixes which calls the store refuses and
    with which error (section 7: any persistence call can fail); [log] is
    what the logger has received. *)
Record World := Build {
  channels : gmap string string;
  teamMembers : gmap (string * string) bool;
  channelMembers : gmap (string * string) bool;
  teamMembersToAdd : Z -> list UserTeamIDPair.t;
  channelMembersToAdd : Z -> list UserChannelIDPair.t;
  channelMembersToRemove : list ChannelMember.t;
  teamMembersToRemove : list TeamMember.t;
  permittedAdmins : string -> model.GroupSyncableType -> list string;
  faults : call -> option AppError.t;
  log : list (string * list mlog.Field)
}.

Definition with_teamMembers (m : gmap (string * string) bool) (w : World) : World :=
  Build (channels w) m (channelMembers w) (teamMembersToAdd w)
        (channelMembersToAdd w) (channelMembersToRemove w)
        (teamMembersToRemove w) (permittedAdmins w) (faults w) (log w).

Definition with_channelMembers (m : gmap (string * string) bool) (w : World) : World :=
  Build (channels w) (teamMembers w) m (teamMembersToAdd w)
        (channelMembersToAdd w) (channelMembersToRemove w)
        (teamMembersToRemove w) (permittedAdmins w) (faults w) (log w).

Definition with_log (l : list (string * list mlog.Field)) (w : World) : World :=
  Build (channels w) (teamMembers w) (channelMembers w) (teamMembersToAdd w)
        (channelMembersToAdd w) (channelMembersToRemove w)
        (teamMembersToRemove w) (permittedAdmins w) (faults w) l.

(** Modelled from the spec: "reapplying an already-satisfied add is a
    no-op" (section 5); a new membership starts without the admin flag. *)
Definition add_member (key : string * string) (m : gmap (string * string) bool)
    : gmap (string * string) bool :=
  match m !! key with
  | Some _ => m
  | None => <[key := false]> m
  end.

(** Modelled from the spec: whether the equality mode of a bulk update
  selects the user, given the list of ids: "equals" selects the users in
  the list, "not-equals" those outside it (section 4.3, step 4). *)
Definition selects (idEquality : store.Equality) (userIDs : list string)
    (userID : string) : bool :=
  match idEquality with
  | store.Equals => existsb (String.eqb userID) userIDs
  | store.NotEquals => negb (existsb (String.eqb userID) userIDs)
  end.

(** Modelled from the spec: [UpdateMembersRole syncableID userIDs mode
    value] assigns [value] to the admin flag of every membership of the
    given syncable whose user is (mode "equals") or is not (mode
    "not-equals") among [userIDs]; memberships of other syncables are not
    touched (section 4.3, step 4). *)
Definition update_roles (syncableID : string) (userIDs : list string)
    (idEquality : store.Equality) (value : bool)
    (m : gmap (string * string) bool) : gmap (string * string) bool :=
  map_imap (fun key admin =>
              Some (if String.eqb key.1 syncableID && selects idEquality userIDs key.2
                    then value else admin)) m.

(** Modelled from the spec: the NotFound error of a lookup that finds
    nothing (sections 6 and 7). *)
Definition not_found (where_ id : string) : AppError.t :=
  model.NewAppError where_ id [] "" 404.

(** Modelled from the spec: the reply of a call that the store refuses with
  [e] (section 7: the error is all the caller learns). *)
Definition refuse (c : call) (e : AppError.t) : reply c :=
  match c with
  | TeamMembersToAdd _ => ([], Some e)
  | ChannelMembersToAdd _ => ([], Some e)
  | AddTeamMember _ _ => Some e
  | GetChannel _ => inl e
  | GetTeamMember _ _ => (None, Some e)
  | AddChannelMember _ _ _ _ => Some e
  | ChannelMembersToRemove => ([], Some e)
  | TeamMembersToRemove => ([], Some e)
  | RemoveUserFromChannel _ _ _ => Some e
  | RemoveUserFromTeam _ _ _ => Some e
  | PermittedSyncableAdmins _ _ => ([], Some e)
  | UpdateMembersRole _ _ _ _ _ => Some e
  | LogInfo _ _ => tt
  end.

(** Modelled from the spec: what each collaborator of section 6 does when
    the store accepts the call.  The queries return the precomputed sets
    and leave the state alone; [GetChannel] fails with NotFound if the
    channel is absent; [GetTeamMember] fails with the "no membership
    found" error if there is none; the add operations create the
    membership unless it exists; the remove operations destroy it; the
    role updates rewrite the admin flags; the logger appends the entry. *)
Definition perform (c : call) (w : World) : reply c * World :=
  match c with
  | TeamMembersToAdd since => ((teamMembersToAdd w since, None), w)
  | ChannelMembersToAdd since => ((channelMembersToAdd w since, None), w)
  | AddTeamMember teamID userID =>
      (None, with_teamMembers (add_member (teamID, userID) (teamMembers w)) w)
  | GetChannel channelID =>
      match channels w !! channelID with
      | Some teamID => (inr (Channel.Build channelID teamID), w)
      | None => (inl (not_found "SqlChannelStore.Get" "store.sql_channel.get.existing.app_error"), w)
      end
  | GetTeamMember teamID userID =>
      match teamMembers w !! (teamID, userID) with
      | Some admin => ((Some (TeamMember.Build teamID userID admin), None), w)
      | None => ((None, Some (not_found "SqlTeamStore.GetMember" team_member_missing_id)), w)
      end
  | AddChannelMember userID channel _ _ =>
      (None, with_channelMembers
               (add_member (Channel.Id channel, userID) (channelMembers w)) w)
  | ChannelMembersToRemove => ((channelMembersToRemove w, None), w)
  | TeamMembersToRemove => ((teamMembersToRemove w, None), w)
  | RemoveUserFromChannel userID _ channel =>
      (None, with_channelMembers
               (delete (Channel.Id channel, userID) (channelMembers w)) w)
  | RemoveUserFromTeam teamID userID _ =>
      (None, with_teamMembers (delete (teamID, userID) (teamMembers w)) w)
  | PermittedSyncableAdmins syncableID syncableType =>
      ((permittedAdmins w syncableID syncableType, None), w)
  | UpdateMembersRole store.Team teamID userIDs idEquality value =>
      (None, with_teamMembers
               (update_roles teamID userIDs idEquality value (teamMembers w)) w)
  | UpdateMembersRole store.Channel channelID userIDs idEquality value =>
      (None, with_channelMembers
               (update_roles channelID userIDs idEquality value (channelMembers w)) w)
  | LogInfo msg fields => (tt, with_log (log w ++ [(msg, fields)]) w)
  end.

(** Modelled from the spec: the logger never fails; every other call fails,
    without effect, when the world's fault table says so (section 7). *)
Definition fault (w : World) (c : call) : option AppError.t :=
  match c with
  | LogInfo _ _ => None
  | _ => faults w c
  end.

(** Modelled from the spec: the collaborators of section 6 as one handler. *)
Definition serve : handler World :=
  fun c w =>
    match fault w c with
    | Some e => (refuse c e, w)
    | None => perform c w
    end.

(** The memberships kept by the team store and by the channel store. *)
Definition members (s : store.Syncable) (w : World) : gmap (string * string) bool :=
  match s with
  | store.Team => teamMembers w
  | store.Channel => channelMembers w
  end.

(** A world without channels, memberships, pending pairs or faults. *)
Definition empty : World :=
  Build ∅ ∅ ∅ (fun _ => []) (fun _ => []) [] [] (fun _ _ => []) (fun _ => None) [].

End Store.

(** ** Observations on runs and traces *)

Definition event_call (ev : event) : call :=
  match ev with Event c _ => c end.

(** The error component of a reply ([None] when the call succeeded). *)
Definition reply_error (c : call) : reply c -> error :=
  match c with
  | TeamMembersToAdd _ => snd
  | ChannelMembersToAdd _ => snd
  | AddTeamMember _ _ => fun r => r
  | GetChannel _ => fun r => match r with inl e => Some e | inr _ => None end
  | GetTeamMember _ _ => snd
  | AddChannelMember _ _ _ _ => fun r => r
  | ChannelMembersToRemove => snd
  | TeamMembersToRemove => snd
  | RemoveUserFromChannel _ _ _ => fun r => r
  | RemoveUserFromTeam _ _ _ => fun r => r
  | PermittedSyncableAdmins _ _ => snd
  | UpdateMembersRole _ _ _ _ _ => fun r => r
  | LogInfo _ _ => fun _ => None
  end.

Definition event_error (ev : event) : error :=
  match ev with Event c x => reply_error c x end.

Definition is_channel_removal (ev : event) : bool :=
  match event_call ev with RemoveUserFromChannel _ _ _ => true | _ => false end.

Definition is_team_removal (ev : event) : bool :=
  match event_call ev with RemoveUserFromTeam _ _ _ => true | _ => false end.

Definition is_role_update (ev : event) : bool :=
  match event_call ev with UpdateMembersRole _ _ _ _ _ => true | _ => false end.

(** The error of the [default] branch of [SyncSyncableRoles]: the
    Configuration error of the specification's taxonomy. *)
Definition unsupported_syncable_type (syncableType : model.GroupSyncableType)
    : AppError.t :=
  model.NewAppError "App.SyncSyncableRoles" unsupported_syncable_type_id
    [("Value", syncableType)] "" http.StatusInternalServerError.

Definition is_configuration_error (err : error) : bool :=
  match err with
  | Some e => String.eqb (AppError.Id e) unsupported_syncable_type_id
  | None => false
  end.

(** The log entries of [CreateDefaultMemberships]. *)
Definition log_added_teammember (userID teamID : string) : event :=
  Event (LogInfo "added teammember"
           [mlog.String "user_id" userID; mlog.String "team_id" teamID]) tt.

Definition log_not_adding (userChannel : UserChannelIDPair.t) : event :=
  Event (LogInfo "Not adding user to channel because they have already left the team"
           [mlog.String "user_id" (UserChannelIDPair.UserID userChannel);
            mlog.String "channel_id" (UserChannelIDPair.ChannelID userChannel)]) tt.

Definition log_added_channelmember (userChannel : UserChannelIDPair.t) : event :=
  Event (LogInfo "added channelmember"
           [mlog.String "user_id" (UserChannelIDPair.UserID userChannel);
            mlog.String "channel_id" (UserChannelIDPair.ChannelID userChannel)]) tt.

(** The log entry of [SyncSyncableRoles]. *)
Definition log_permitted_admins (syncableID : string)
    (syncableType : model.GroupSyncableType) (permittedAdmins : list string) : call :=
  LogInfo ("Permitted admins for " +:+ syncableType)
    [mlog.String (strings.ToLower (syncableType +:+ "_id")) syncableID;
     mlog.Any "permitted_admins" permittedAdmins].

(** The events of a team-phase iteration that succeeds. *)
Definition team_member_added (userTeam : UserTeamIDPair.t) : list event :=
  [Event (AddTeamMember (UserTeamIDPair.TeamID userTeam)
                        (UserTeamIDPair.UserID userTeam)) None;
   log_added_teammember (UserTeamIDPair.UserID userTeam)
                        (UserTeamIDPair.TeamID userTeam)].

(** [reaches_pair h since w done p rest wp tr]: a run of
    [CreateDefaultMemberships since] that starts in [w] gets as far as the
    pair [p] of the channel loop.  The team phase completes, the channel
    query returns [done ++ p :: rest] and the pairs of [done] are processed
    without a [return]; [wp] is the state in which the iteration for [p]
    starts and [tr] the trace up to there. *)
Definition reaches_pair {W : Type} (h : handler W) (since : Z) (w : W)
    (done : list UserChannelIDPair.t) (p : UserChannelIDPair.t)
    (rest : list UserChannelIDPair.t) (wp : W) (tr : list event) : Prop :=
  exists teamMembers w1 tr1 w2 w3 tr2,
    h (TeamMembersToAdd since) w = ((teamMembers, None), w1) /\
    run h (for_range teamMembers addTeamMember_iteration) w1 = (None, w2, tr1) /\
    h (ChannelMembersToAdd since) w2 = ((done ++ p :: rest, None), w3) /\
    run h (for_range done addChannelMember_iteration) w3 = (None, wp, tr2) /\
    tr = Event (TeamMembersToAdd since) (teamMembers, None) :: tr1
         ++ Event (ChannelMembersToAdd since) (done ++ p :: rest, None) :: tr2.

(** ** Worlds used as examples *)

Definition storage_down : AppError.t :=
  model.NewAppError "SqlGroupStore" "store.select_error" [] "connection refused"
    http.StatusInternalServerError.

(** A world whose group store refuses the permitted-admins query. *)
Definition world_query_down : Store.World :=
  Store.Build ∅ ∅ ∅ (fun _ => []) (fun _ => []) [] [] (fun _ _ => [])
    (fun c => match c with
              | PermittedSyncableAdmins _ _ => Some storage_down
              | _ => None
              end)
    [].

(** Team ["t1"] with members ["u1"] (not an admin), ["u2"] (an admin) and
    ["u3"]; channel ["c1"] of that team with the same members; the groups
    permit ["u1"] and a non-member ["u9"] as admins of both.  [broken] lists
    the role updates that the store refuses. *)
Definition world_roles (broken : list store.Equality) : Store.World :=
  Store.Build
    {[ "c1" := "t1" ]}
    {[ ("t1", "u1") := false; ("t1", "u2") := true; ("t1", "u3") := false;
       ("t2", "u2") := true ]}
    {[ ("c1", "u1") := false; ("c1", "u2") := true; ("c1", "u3") := false ]}
    (fun _ => []) (fun _ => []) [] []
    (fun _ _ => ["u1"; "u9"])
    (fun c => match c with
              | UpdateMembersRole _ _ _ idEquality _ =>
                  if existsb (fun q => match q, idEquality with
                                       | store.Equals, store.Equals => true
                                       | store.NotEquals, store.NotEquals => true
                                       | _, _ => false
                                       end) broken
                  then Some storage_down else None
              | _ => None
              end)
    [].

(** The group configuration makes ["u1"], ["u2"] and ["u3"] eligible for
    team ["t1"]; the store refuses to add ["u2"]. *)
Definition world_team_additions : Store.World :=
  Store.Build ∅ ∅ ∅
    (fun _ => [UserTeamIDPair.Build "u1" "t1"; UserTeamIDPair.Build "u2" "t1";
               UserTeamIDPair.Build "u3" "t1"])
    (fun _ => []) [] [] (fun _ _ => [])
    (fun c => match c with
              | AddTeamMember "t1" "u2" => Some storage_down
              | _ => None
              end)
    [].

Definition conflict_left_team : AppError.t :=
  model.NewAppError "AddUserToChannel" add_channel_member_deleted_id [] "" 400.

(** Channels ["c1"] and ["c2"] belong to team ["t1"], of which ["u1"] is a
    member and ["u2"] is not.  The group configuration makes ["u1"] eligible
    for ["c1"] and ["u2"] for ["c2"]; adding ["u1"] to a channel is refused
    with the conflict "user has already left the team". *)
Definition world_left_team : Store.World :=
  Store.Build
    {[ "c1" := "t1"; "c2" := "t1" ]}
    {[ ("t1", "u1") := false ]}
    ∅
    (fun _ => [])
    (fun _ => [UserChannelIDPair.Build "u1" "c1"; UserChannelIDPair.Build "u2" "c2"])
    [] [] (fun _ _ => [])
    (fun c => match c with
              | AddChannelMember "u1" _ _ _ => Some conflict_left_team
              | _ => None
              end)
    [].

(** Channel ["c1"] of team ["t1"] is group-constrained and no longer
    permits ["u1"] and ["u2"]; team ["t1"] no longer permits ["u2"]. *)
Definition world_removals : Store.World :=
  Store.Build
    {[ "c1" := "t1" ]}
    {[ ("t1", "u1") := false; ("t1", "u2") := false; ("t1", "u3") := true ]}
    {[ ("c1", "u1") := false; ("c1", "u2") := false; ("c1", "u3") := true ]}
    (fun _ => []) (fun _ => [])
    [ChannelMember.Build "c1" "u1" false; ChannelMember.Build "c1" "u2" false]
    [TeamMember.Build "t1" "u2" false]
    (fun _ _ => []) (fun _ => None) [].

(** ** Relations between worlds of the reference store *)

(** The worlds have the same channels, the same pending pairs and the same
    fault table; their memberships and logs may differ. *)
Definition same_setting (w w' : Store.World) : Prop :=
  Store.channels w = Store.channels w'
  /\ Store.teamMembersToAdd w = Store.teamMembersToAdd w'
  /\ Store.channelMembersToAdd w = Store.channelMembersToAdd w'
  /\ Store.faults w = Store.faults w'.

Definition same_members (w w' : Store.World) : Prop :=
  Store.teamMembers w = Store.teamMembers w'
  /\ Store.channelMembers w = Store.channelMembers w'.

(** Every membership of [w] is a membership of [w'], with the same flag. *)
Definition members_included (w w' : Store.World) : Prop :=
  Store.teamMembers w ⊆ Store.teamMembers w'
  /\ Store.channelMembers w ⊆ Store.channelMembers w'.

(** [replays body]: whatever an iteration does when started in [w], it does
    the same, without changing a membership, when it is started again in a
    world that already contains what it left behind -- and, if the
    iteration returned an error, nothing beyond that. *)
Definition replays {A : Type} (body : A -> prog error) : Prop :=
  forall (x : A) (w wb : Store.World) (rb : error) (tr : list event),
    run Store.serve (body x) w = (rb, wb, tr) ->
    same_setting w wb /\ members_included w wb
    /\ forall w',
         same_setting wb w' -> members_included wb w' ->
         (rb <> None -> same_members wb w') ->
         exists w'' tr',
           run Store.serve (body x) w' = (rb, w'', tr')
           /\ same_setting w' w'' /\ same_members w' w''.

(** ** Further observations on traces *)

Definition is_addition (ev : event) : bool :=
  match event_call ev with
  | AddTeamMember _ _ | AddChannelMember _ _ _ _ => true
  | _ => false
  end.

(** The error of the last call of a trace ([None] if that call succeeded,
    or if there is no call). *)
Definition last_error (tr : list event) : error :=
  match last tr with
  | Some ev => event_error ev
  | None => None
  end.

(** Lines 48 and 66: the two failed calls after which
    [CreateDefaultMemberships] goes on, a team-membership lookup that
    fails with "no membership found" and an add-channel-member command that
    fails with the tolerated conflict. *)
Definition tolerated_failure (ev : event) : bool :=
  match event_call ev, event_error ev with
  | GetTeamMember _ _, Some e => String.eqb (AppError.Id e) team_member_missing_id
  | AddChannelMember _ _ _ _, Some e => tolerated_conflict e
  | _, _ => false
  end.

(** The log entries of [DeleteGroupConstrainedMemberships]. *)
Definition log_removed_channelmember (userID : string) (channel : Channel.t) : event :=
  Event (LogInfo "removed channelmember"
           [mlog.String "user_id" userID;
            mlog.String "channel_id" (Channel.Id channel)]) tt.

Definition log_removed_teammember (userID teamID : string) : event :=
  Event (LogInfo "removed teammember"
           [mlog.String "user_id" userID; mlog.String "team_id" teamID]) tt.

(** The events of a team-removal iteration that succeeds. *)
Definition team_member_removed (userTeam : TeamMember.t) : list event :=
  [Event (RemoveUserFromTeam (TeamMember.TeamId userTeam)
                             (TeamMember.UserId userTeam) "") None;
   log_removed_teammember (TeamMember.UserId userTeam) (TeamMember.TeamId userTeam)].

(** The channel identifiers looked up, the users of the add-channel-member
    commands and the users of the channel removals of a trace, in order. *)
Definition fetched_channels (tr : list event) : list string :=
  omap (fun ev => match event_call ev with
                  | GetChannel channelID => Some channelID
                  | _ => None
                  end) tr.

Definition channel_additions (tr : list event) : list string :=
  omap (fun ev => match event_call ev with
                  | AddChannelMember userID _ _ _ => Some userID
                  | _ => None
                  end) tr.

Definition channel_removals (tr : list event) : list string :=
  omap (fun ev => match event_call ev with
                  | RemoveUserFromChannel userID _ _ => Some userID
                  | _ => None
                  end) tr.

(** [positions phi tr r]: [phi pre ev post r] holds of every event [ev] of
    the trace [tr], where [pre] are the events before it and [post] the
    events after it, and [r] is the result of the run. *)
Definition positions (phi : list event -> event -> list event -> error -> Prop)
    (tr : list event) (r : error) : Prop :=
  forall pre ev post, tr = pre ++ ev :: post -> phi pre ev post r.

(** The same, position by position, for a trace that follows [pre]. *)
Fixpoint positions_from (phi : list event -> event -> list event -> error -> Prop)
    (pre tr : list event) (r : error) : Prop :=
  match tr with
  | [] => True
  | ev :: post => phi pre ev post r /\ positions_from phi (pre ++ [ev]) post r
  end.

(** [framed phi]: what [phi] says of an event of a part of a run that does
    not return stays true when the run goes on, and what it says of an event
    stays true when more events precede. *)
Definition framed (phi : list event -> event -> list event -> error -> Prop) : Prop :=
  (forall pre ev post tr r, phi pre ev post None -> phi pre ev (post ++ tr) r)
  /\ (forall tr pre ev post r, phi pre ev post r -> phi (tr ++ pre) ev post r).

(** The team, the user and the reply of a team-membership lookup. *)
Definition as_GetTeamMember (ev : event)
    : option (string * string * (option TeamMember.t * error)) :=
  match ev with
  | Event c x =>
      match c return reply c -> option (string * string * (option TeamMember.t * error)) with
      | GetTeamMember teamID userID => fun x => Some (teamID, userID, x)
      | _ => fun _ => None
      end x
  end.

(** As [world_removals], but the removal query also names a member of a
    channel ["c9"] that does not exist. *)
Definition world_removal_fails : Store.World :=
  Store.Build
    {[ "c1" := "t1" ]}
    {[ ("t1", "u1") := false; ("t1", "u2") := false ]}
    {[ ("c1", "u1") := false; ("c1", "u2") := false ]}
    (fun _ => []) (fun _ => [])
    [ChannelMember.Build "c1" "u1" false; ChannelMember.Build "c9" "u2" false]
    [TeamMember.Build "t1" "u2" false]
    (fun _ _ => []) (fun _ => None) [].

(** The events of a channel-removal iteration that succeeds, by the channel
    that the lookup returned. *)
Definition channel_member_removed (userChannel : ChannelMember.t) (channel : Channel.t)
    : list event :=
  [Event (GetChannel (ChannelMember.ChannelId userChannel)) (inr channel);
   Event (RemoveUserFromChannel (ChannelMember.UserId userChannel) "" channel) None;
   log_removed_channelmember (ChannelMember.UserId userChannel) channel].

(** The calls of the channel phase and of the team phase of
    [DeleteGroupConstrainedMemberships] (lines 88 to 108 and 110 to 125);
    a log entry belongs to the phase that writes it. *)
Definition channel_phase_call (ev : event) : bool :=
  match event_call ev with
  | ChannelMembersToRemove | GetChannel _ | RemoveUserFromChannel _ _ _ => true
  | _ => false
  end.

Definition team_phase_call (ev : event) : bool :=
  match event_call ev with
  | TeamMembersToRemove | RemoveUserFromTeam _ _ _ => true
  | _ => false
  end.


(** The calls that each operation makes: its queries, its lookups, its one
    kind of write and the log.  The queries of [CreateDefaultMemberships]
    carry its [since] bound. *)
Definition addition_call (since : Z) (ev : event) : bool :=
  match event_call ev with
  | TeamMembersToAdd s | ChannelMembersToAdd s => Z.eqb s since
  | AddTeamMember _ _ | GetChannel _ | GetTeamMember _ _
  | AddChannelMember _ _ _ _ | LogInfo _ _ => true
  | _ => false
  end.

Definition removal_call (ev : event) : bool :=
  match event_call ev with
  | ChannelMembersToRemove | TeamMembersToRemove | GetChannel _
  | RemoveUserFromChannel _ _ _ | RemoveUserFromTeam _ _ _ | LogInfo _ _ => true
  | _ => false
  end.

Definition role_call (syncableID : string) (syncableType : model.GroupSyncableType)
    (ev : event) : bool :=
  match event_call ev with
  | PermittedSyncableAdmins id ty =>
      String.eqb id syncableID && String.eqb ty syncableType
  | UpdateMembersRole _ id _ _ _ => String.eqb id syncableID
  | LogInfo _ _ => true
  | _ => false
  end.

(** The syncable types that the [switch] of [SyncSyncableRoles] accepts,
    with the store whose [UpdateMembersRole] it selects. *)
Definition supported (syncableType : model.GroupSyncableType) (s : store.Syncable)
    : Prop :=
  syncableType = model.GroupSyncableTypeTeam /\ s = store.Team \/
  syncableType = model.GroupSyncableTypeChannel /\ s = store.Channel.


(** The channel lookups of a trace that returned a channel, in order: the
    identifier looked up and the channel returned. *)
Definition fetched (tr : list event) : list (string * Channel.t) :=
  omap (fun ev =>
          match ev with
          | Event c x =>
              match c return reply c -> option (string * Channel.t) with
              | GetChannel channelID =>
                  fun x => match x with
                           | inr channel => Some (channelID, channel)
                           | inl _ => None
                           end
              | _ => fun _ => None
              end x
          end) tr.

(** What [CreateDefaultMemberships] does around an add-channel-member
    command and around the two log entries that may follow it (lines 64
    to 79), as a property of one event [ev] of a trace, [pre] the events
    before it, [post] the events after it and [r] the result of the run. *)
Definition channel_addition_log (pre : list event) (ev : event) (post : list event)
    (r : error) : Prop :=
  match ev with
  | Event c x =>
      match c return reply c -> Prop with
      | AddChannelMember userID channel requestorID postRootID =>
          fun err =>
            requestorID = "" /\ postRootID = ""
            /\ exists channelID,
                 last (fetched pre) = Some (channelID, channel)
                 /\ let p := UserChannelIDPair.Build userID channelID in
                    match err with
                    | None => exists post', post = log_added_channelmember p :: post'
                    | Some e =>
                        (AppError.Id e = add_channel_member_deleted_id ->
                         exists post',
                           post = log_not_adding p :: log_added_channelmember p :: post')
                        /\ (AppError.Id e <> add_channel_member_deleted_id ->
                            post = [] /\ r = Some e)
                    end
      | LogInfo msg fields =>
          fun _ =>
            (msg = "added channelmember" ->
             exists pre' userID channelID channel,
               let p := UserChannelIDPair.Build userID channelID in
               Event (LogInfo msg fields) tt = log_added_channelmember p
               /\ (pre = pre' ++ [Event (AddChannelMember userID channel "" "") None]
                   \/ exists e,
                        AppError.Id e = add_channel_member_deleted_id
                        /\ pre = pre' ++ [Event (AddChannelMember userID channel "" "")
                                            (Some e);
                                          log_not_adding p]))
            /\ (msg = "Not adding user to channel because they have already left the team" ->
                exists pre' userID channelID channel e,
                  Event (LogInfo msg fields) tt
                  = log_not_adding (UserChannelIDPair.Build userID channelID)
                  /\ AppError.Id e = add_channel_member_deleted_id
                  /\ pre = pre' ++ [Event (AddChannelMember userID channel "" "") (Some e)])
      | _ => fun _ => True
      end x
  end.

(** The team and the user of the add-team-member commands and of the team
    removals of a trace, in order. *)
Definition team_additions (tr : list event) : list (string * string) :=
  omap (fun ev => match event_call ev with
                  | AddTeamMember teamID userID => Some (teamID, userID)
                  | _ => None
                  end) tr.

Definition team_removals (tr : list event) : list (string * string) :=
  omap (fun ev => match event_call ev with
                  | RemoveUserFromTeam teamID userID _ => Some (teamID, userID)
                  | _ => None
                  end) tr.


(** As [world_left_team], but adding ["u1"] to a channel is refused with a
    storage error, which is not the tolerated conflict. *)
Definition world_channel_add_fails : Store.World :=
  Store.Build
    {[ "c1" := "t1"; "c2" := "t1" ]}
    {[ ("t1", "u1") := false ]}
    ∅
    (fun _ => [])
    (fun _ => [UserChannelIDPair.Build "u1" "c1"; UserChannelIDPair.Build "u2" "c2"])
    [] [] (fun _ _ => [])
    (fun c => match c with
              | AddChannelMember "u1" _ _ _ => Some storage_down
              | _ => None
              end)
    [].

(** The calls of each of the four loops: the lookups, the one write and the
    log entries of an iteration, and no query. *)
Definition team_addition_loop_call (ev : event) : bool :=
  match event_call ev with
  | AddTeamMember _ _ | LogInfo _ _ => true
  | _ => false
  end.

Definition channel_addition_loop_call (ev : event) : bool :=
  match event_call ev with
  | GetChannel _ | GetTeamMember _ _ | AddTeamMember _ _
  | AddChannelMember _ _ _ _ | LogInfo _ _ => true
  | _ => false
  end.

Definition channel_removal_loop_call (ev : event) : bool :=
  match event_call ev with
  | GetChannel _ | RemoveUserFromChannel _ _ _ | LogInfo _ _ => true
  | _ => false
  end.

Definition team_removal_loop_call (ev : event) : bool :=
  match event_call ev with
  | RemoveUserFromTeam _ _ _ | LogInfo _ _ => true
  | _ => false
  end.


(** As [world_left_team], but the team-membership lookup is refused with a
    storage error, which is not "no membership found". *)
Definition world_lookup_fails : Store.World :=
  Store.Build
    {[ "c1" := "t1"; "c2" := "t1" ]}
    {[ ("t1", "u1") := false ]}
    ∅
    (fun _ => [])
    (fun _ => [UserChannelIDPair.Build "u1" "c1"; UserChannelIDPair.Build "u2" "c2"])
    [] [] (fun _ _ => [])
    (fun c => match c with
              | GetTeamMember _ _ => Some storage_down
              | _ => None
              end)
    [].

(** * Properties *)

(** ** Runs of composed programs *)

Lemma run_bind {W A B : Type} (h : handler W) (m : prog A) (f : A -> prog B) (w : W) :
  run h (m ≫= f) w =
  let '(a, w1, tr1) := run h m w in
  let '(b, w2, tr2) := run h (f a) w1 in
  (b, w2, tr1 ++ tr2).
Proof.
  revert w. induction m as [a | c k IH]; intros w.
  - simpl. change (Ret a ≫= f) with (f a). by destruct (run h (f a) w) as [[b w2] tr2].
  - change (Vis c k ≫= f) with (Vis c (fun x => k x ≫= f)). simpl.
    destruct (h c w) as [x w1]. rewrite IH.
    destruct (run h (k x) w1) as [[a w2] tr1].
    by destruct (run h (f a) w2) as [[b w3] tr2].
Qed.

(** One call followed by the rest of the program. *)
Ltac run_call := rewrite run_bind; unfold invoke at 1; cbn [run].

Lemma run_for_range_cons {W A : Type} (h : handler W) (body : A -> prog error)
    (x : A) (l : list A) (w : W) :
  run h (for_range (x :: l) body) w =
  let '(r, w1, tr1) := run h (body x) w in
  match r with
  | Some e => (Some e, w1, tr1)
  | None =>
      let '(r', w2, tr2) := run h (for_range l body) w1 in (r', w2, tr1 ++ tr2)
  end.
Proof.
  cbn [for_range]. rewrite run_bind.
  destruct (run h (body x) w) as [[[e|] w1] tr1]; cbn [run].
  - by rewrite app_nil_r.
  - by destruct (run h (for_range l body) w1) as [[r' w2] tr2].
Qed.

Lemma run_for_range_app {W A : Type} (h : handler W) (body : A -> prog error)
    (l1 l2 : list A) (w : W) :
  run h (for_range (l1 ++ l2) body) w =
  let '(r, w1, tr1) := run h (for_range l1 body) w in
  match r with
  | Some e => (Some e, w1, tr1)
  | None =>
      let '(r', w2, tr2) := run h (for_range l2 body) w1 in (r', w2, tr1 ++ tr2)
  end.
Proof.
  revert w. induction l1 as [|x l1 IH]; intros w.
  - cbn [app for_range run]. by destruct (run h (for_range l2 body) w) as [[r' w2] tr2].
  - rewrite <- app_comm_cons, !run_for_range_cons.
    destruct (run h (body x) w) as [[[e|] w1] tr1]; [done|].
    rewrite IH. destruct (run h (for_range l1 body) w1) as [[[e|] w2] tr2]; [done|].
    destruct (run h (for_range l2 body) w2) as [[r' w3] tr3].
    by rewrite app_assoc.
Qed.

(** The final state of a run is the state in which serving the calls of its
    trace leaves the implementation: a run changes the state through its
    calls and in no other way. *)
Lemma run_final_replay {W R : Type} (h : handler W) (p : prog R) (w : W) :
  final (run h p w) = replay h (trace (run h p w)) w.
Proof.
  revert w. induction p as [r | c k IH]; intros w; [done|].
  cbn [run]. destruct (h c w) as [x w1] eqn:Hc.
  specialize (IH x w1). destruct (run h (k x) w1) as [[r w2] tr].
  unfold final, trace in *. cbn [fst snd replay] in *. by rewrite Hc.
Qed.

(** ** The role synchronizer *)

Lemma select_updateFunc_unsupported (syncableType : model.GroupSyncableType) :
  syncableType <> model.GroupSyncableTypeTeam ->
  syncableType <> model.GroupSyncableTypeChannel ->
  select_updateFunc syncableType = None.
Proof.
  intros HT HC. unfold select_updateFunc.
  apply String.eqb_neq in HT, HC. by rewrite HT, HC.
Qed.

Lemma select_updateFunc_supported (syncableType : model.GroupSyncableType)
    (s : store.Syncable) :
  syncableType = model.GroupSyncableTypeTeam /\ s = store.Team \/
  syncableType = model.GroupSyncableTypeChannel /\ s = store.Channel ->
  select_updateFunc syncableType =
  Some (fun id userIDs idEquality value =>
          invoke (UpdateMembersRole s id userIDs idEquality value)).
Proof. by intros [[-> ->] | [-> ->]]. Qed.

(** The shape of every run of [SyncSyncableRoles], by the replies of the
    collaborators. *)
Lemma run_SyncSyncableRoles {W : Type} (h : handler W) (w : W)
    (syncableID : string) (syncableType : model.GroupSyncableType) :
  run h (SyncSyncableRoles syncableID syncableType) w =
  let query := PermittedSyncableAdmins syncableID syncableType in
  let '((permittedAdmins, err), w1) := h query w in
  match err with
  | Some e => (Some e, w1, [Event query (permittedAdmins, Some e)])
  | None =>
      let entry := log_permitted_admins syncableID syncableType permittedAdmins in
      let w2 := (h entry w1).2 in
      match select_updateFunc syncableType with
      | None =>
          (Some (unsupported_syncable_type syncableType), w2,
           [Event query (permittedAdmins, None); Event entry tt])
      | Some updateFunc =>
          let '(r1, w3, tr1) :=
            run h (updateFunc syncableID permittedAdmins store.Equals true) w2 in
          match r1 with
          | Some e =>
              (Some e, w3,
               Event query (permittedAdmins, None) :: Event entry tt :: tr1)
          | None =>
              let '(r2, w4, tr2) :=
                run h (updateFunc syncableID permittedAdmins store.NotEquals false) w3 in
              (r2, w4,
               Event query (permittedAdmins, None) :: Event entry tt :: tr1 ++ tr2)
          end
      end
  end.
Proof.
  unfold SyncSyncableRoles. rewrite run_bind. unfold invoke at 1. cbn [run].
  destruct (h (PermittedSyncableAdmins syncableID syncableType) w)
    as [[permittedAdmins [e|]] w1]; cbn [run app]; [done|].
  rewrite run_bind. unfold invoke at 1. cbn [run].
  fold (log_permitted_admins syncableID syncableType permittedAdmins).
  destruct (h (log_permitted_admins syncableID syncableType permittedAdmins) w1)
    as [[] w2]; cbn [fst snd].
  destruct (select_updateFunc syncableType) as [updateFunc|]; [|done].
  rewrite run_bind.
  destruct (run h (updateFunc syncableID permittedAdmins store.Equals true) w2)
    as [[[e|] w3] tr1]; cbn [run app]; [by rewrite app_nil_r|].
  rewrite run_bind.
  destruct (run h (updateFunc syncableID permittedAdmins store.NotEquals false) w3)
    as [[[e|] w4] tr2]; cbn [run app]; by rewrite app_nil_r.
Qed.

(** C10: with a syncable type that is neither Team nor Channel, the
    permitted-admins query is still the first call of [SyncSyncableRoles].
    If the query fails, its error is what the caller gets and nothing else
    happens; if it succeeds, its result is logged and only then the type is
    rejected with the Configuration error. *)
Theorem C10_query_precedes_type_validation {W : Type} (h : handler W) (w : W)
    (syncableID : string) (syncableType : model.GroupSyncableType) :
  syncableType <> model.GroupSyncableTypeTeam ->
  syncableType <> model.GroupSyncableTypeChannel ->
  let query := PermittedSyncableAdmins syncableID syncableType in
  let o := run h (SyncSyncableRoles syncableID syncableType) w in
  match h query w with
  | ((permittedAdmins, Some e), w1) =>
      o = (Some e, w1, [Event query (permittedAdmins, Some e)])
  | ((permittedAdmins, None), w1) =>
      let entry := log_permitted_admins syncableID syncableType permittedAdmins in
      o = (Some (unsupported_syncable_type syncableType), (h entry w1).2,
           [Event query (permittedAdmins, None); Event entry tt])
  end.
Proof.
  intros HT HC query o. subst o query. rewrite run_SyncSyncableRoles.
  rewrite (select_updateFunc_unsupported _ HT HC). cbv zeta.
  by destruct (h (PermittedSyncableAdmins syncableID syncableType) w)
    as [[permittedAdmins [e|]] w1].
Qed.

Lemma C10_witness :
  run Store.serve (SyncSyncableRoles "t1" "Group") world_query_down =
  (Some storage_down, world_query_down,
   [Event (PermittedSyncableAdmins "t1" "Group") ([], Some storage_down)])
  /\ run Store.serve (SyncSyncableRoles "t1" "Group") (world_roles []) =
     (Some (unsupported_syncable_type "Group"),
      (Store.serve (log_permitted_admins "t1" "Group" ["u1"; "u9"]) (world_roles [])).2,
      [Event (PermittedSyncableAdmins "t1" "Group") (["u1"; "u9"], None);
       Event (log_permitted_admins "t1" "Group" ["u1"; "u9"]) tt]).
Proof.
  split.
  - exact (C10_query_precedes_type_validation Store.serve world_query_down
             "t1" "Group" ltac:(discriminate) ltac:(discriminate)).
  - exact (C10_query_precedes_type_validation Store.serve (world_roles [])
             "t1" "Group" ltac:(discriminate) ltac:(discriminate)).
Defined.

(** C6, as the code has it: with a syncable type that is neither Team nor
    Channel, [SyncSyncableRoles] issues no role update at all, and it
    returns the Configuration error whenever the permitted-admins query
    succeeds. *)
Theorem C6_unsupported_type_no_writes {W : Type} (h : handler W) (w : W)
    (syncableID : string) (syncableType : model.GroupSyncableType) :
  syncableType <> model.GroupSyncableTypeTeam ->
  syncableType <> model.GroupSyncableTypeChannel ->
  let o := run h (SyncSyncableRoles syncableID syncableType) w in
  Forall (fun ev => is_role_update ev = false) (trace o)
  /\ ((h (PermittedSyncableAdmins syncableID syncableType) w).1.2 = None ->
      result o = Some (unsupported_syncable_type syncableType)
      /\ is_configuration_error (result o) = true).
Proof.
  intros HT HC o.
  pose proof (C := run_SyncSyncableRoles h w syncableID syncableType).
  rewrite (select_updateFunc_unsupported _ HT HC) in C. cbv zeta in C.
  subst o. rewrite C.
  destruct (h (PermittedSyncableAdmins syncableID syncableType) w)
    as [[permittedAdmins [e|]] w1]; cbn.
  - split; [by repeat constructor | done].
  - split; [by repeat constructor | done].
Qed.

Lemma C6_witness :
  let o := run Store.serve (SyncSyncableRoles "t1" "Group") (world_roles []) in
  Forall (fun ev => is_role_update ev = false) (trace o)
  /\ result o = Some (unsupported_syncable_type "Group")
  /\ is_configuration_error (result o) = true.
Proof.
  destruct (C6_unsupported_type_no_writes Store.serve (world_roles [])
              "t1" "Group" ltac:(discriminate) ltac:(discriminate)) as [Hw Hr].
  split; [exact Hw | exact (Hr eq_refl)].
Defined.

(** C6, counterexample to "always returns the Configuration error": the
    type is unsupported and the permitted-admins query fails, so the caller
    gets the error of the query and not the Configuration error. *)
Lemma C6_counterexample :
  "Group" <> model.GroupSyncableTypeTeam
  /\ "Group" <> model.GroupSyncableTypeChannel
  /\ result (run Store.serve (SyncSyncableRoles "t1" "Group") world_query_down)
     = Some storage_down
  /\ is_configuration_error
       (result (run Store.serve (SyncSyncableRoles "t1" "Group") world_query_down))
     = false.
Proof. repeat split; discriminate. Qed.

(** C7: with a supported syncable type and a successful query, the run of
    [SyncSyncableRoles] is decided by the two bulk updates.  If the first
    (equals mode, admin := true) fails, its error is returned, it is the
    last call of the run (the second update is not attempted and nothing is
    undone) and the state is the one that the failed call left.  If the
    first succeeds and the second (not-equals mode, admin := false) fails,
    the error of the second is returned. *)
Theorem C7_bulk_update_failures {W : Type} (h : handler W) (w : W)
    (syncableID : string) (syncableType : model.GroupSyncableType)
    (s : store.Syncable) (permittedAdmins : list string) (w1 : W) :
  syncableType = model.GroupSyncableTypeTeam /\ s = store.Team \/
  syncableType = model.GroupSyncableTypeChannel /\ s = store.Channel ->
  h (PermittedSyncableAdmins syncableID syncableType) w = ((permittedAdmins, None), w1) ->
  let entry := log_permitted_admins syncableID syncableType permittedAdmins in
  let grant := UpdateMembersRole s syncableID permittedAdmins store.Equals true in
  let revoke := UpdateMembersRole s syncableID permittedAdmins store.NotEquals false in
  let before :=
    [Event (PermittedSyncableAdmins syncableID syncableType) (permittedAdmins, None);
     Event entry tt] in
  let o := run h (SyncSyncableRoles syncableID syncableType) w in
  match h grant (h entry w1).2 with
  | (Some e, w3) => o = (Some e, w3, before ++ [Event grant (Some e)])
  | (None, w3) =>
      match h revoke w3 with
      | (Some e, w4) =>
          o = (Some e, w4, before ++ [Event grant None; Event revoke (Some e)])
      | (None, w4) =>
          o = (None, w4, before ++ [Event grant None; Event revoke None])
      end
  end.
Proof.
  intros Hs Hq entry grant revoke before o. subst o.
  rewrite run_SyncSyncableRoles, (select_updateFunc_supported _ s Hs).
  cbv zeta. rewrite Hq. unfold invoke. cbn [run].
  fold entry grant revoke.
  destruct (h grant (h entry w1).2) as [[e|] w3]; [done|].
  by destruct (h revoke w3) as [[e|] w4].
Qed.

Lemma C7_witness :
  (* the first update fails: team store *)
  run Store.serve (SyncSyncableRoles "t1" "Team") (world_roles [store.Equals]) =
  (Some storage_down,
   (Store.serve (log_permitted_admins "t1" "Team" ["u1"; "u9"])
      (world_roles [store.Equals])).2,
   [Event (PermittedSyncableAdmins "t1" "Team") (["u1"; "u9"], None);
    Event (log_permitted_admins "t1" "Team" ["u1"; "u9"]) tt;
    Event (UpdateMembersRole store.Team "t1" ["u1"; "u9"] store.Equals true)
      (Some storage_down)])
  (* the second update fails: channel store *)
  /\ result (run Store.serve (SyncSyncableRoles "c1" "Channel")
               (world_roles [store.NotEquals])) = Some storage_down.
Proof.
  split.
  - exact (C7_bulk_update_failures Store.serve (world_roles [store.Equals])
             "t1" "Team" store.Team ["u1"; "u9"] (world_roles [store.Equals])
             (or_introl (conj eq_refl eq_refl)) eq_refl).
  - exact (f_equal result
             (C7_bulk_update_failures Store.serve (world_roles [store.NotEquals])
                "c1" "Channel" store.Channel ["u1"; "u9"] (world_roles [store.NotEquals])
                (or_intror (conj eq_refl eq_refl)) eq_refl)).
Defined.

(** *** The bulk updates of the reference store *)

Lemma existsb_eqb_In (userID : string) (userIDs : list string) :
  existsb (String.eqb userID) userIDs = true <-> In userID userIDs.
Proof.
  rewrite existsb_exists. split.
  - intros (x & Hx & Heq). apply String.eqb_eq in Heq. by subst.
  - intros Hin. exists userID. split; [done | apply String.eqb_refl].
Qed.

Lemma lookup_update_roles (syncableID : string) (userIDs : list string)
    (idEquality : store.Equality) (value : bool)
    (m : gmap (string * string) bool) (sid uid : string) :
  Store.update_roles syncableID userIDs idEquality value m !! (sid, uid) =
  (fun admin => if String.eqb sid syncableID && Store.selects idEquality userIDs uid
                then value else admin) <$> m !! (sid, uid).
Proof.
  unfold Store.update_roles. rewrite map_lookup_imap.
  by destruct (m !! (sid, uid)).
Qed.

(** Granting to the listed users and then revoking from the others leaves
    the admin flag of a member of the syncable equal to "is listed". *)
Lemma lookup_grant_revoke (syncableID : string) (userIDs : list string)
    (m : gmap (string * string) bool) (uid : string) :
  Store.update_roles syncableID userIDs store.NotEquals false
    (Store.update_roles syncableID userIDs store.Equals true m) !! (syncableID, uid) =
  (fun _ => existsb (String.eqb uid) userIDs) <$> m !! (syncableID, uid).
Proof.
  rewrite !lookup_update_roles. destruct (m !! (syncableID, uid)) as [admin|]; [|done].
  cbn. rewrite String.eqb_refl. cbn.
  by destruct (existsb (String.eqb uid) userIDs).
Qed.

(** What the reference store does with a bulk update. *)
Lemma serve_UpdateMembersRole (s : store.Syncable) (syncableID : string)
    (userIDs : list string) (idEquality : store.Equality) (value : bool)
    (w : Store.World) :
  (exists e, Store.serve (UpdateMembersRole s syncableID userIDs idEquality value) w
             = (Some e, w))
  \/ (exists w', Store.serve (UpdateMembersRole s syncableID userIDs idEquality value) w
                 = (None, w')
                 /\ Store.members s w' =
                    Store.update_roles syncableID userIDs idEquality value
                      (Store.members s w)).
Proof.
  unfold Store.serve.
  destruct (Store.fault w _) as [e|]; [left; by exists e|].
  right. destruct s; by eexists.
Qed.

(** A successful run of [SyncSyncableRoles] on the reference store: the type
    is supported and the selected store ends with both updates applied. *)
Lemma run_SyncSyncableRoles_store (w w' : Store.World) (syncableID : string)
    (syncableType : model.GroupSyncableType) (tr : list event) :
  run Store.serve (SyncSyncableRoles syncableID syncableType) w = (None, w', tr) ->
  exists s permittedAdmins tr',
    (syncableType = model.GroupSyncableTypeTeam /\ s = store.Team \/
     syncableType = model.GroupSyncableTypeChannel /\ s = store.Channel)
    /\ tr = Event (PermittedSyncableAdmins syncableID syncableType)
                  (permittedAdmins, None) :: tr'
    /\ Store.members s w' =
       Store.update_roles syncableID permittedAdmins store.NotEquals false
         (Store.update_roles syncableID permittedAdmins store.Equals true
            (Store.members s w)).
Proof.
  rewrite run_SyncSyncableRoles. cbv zeta.
  unfold Store.serve at 1.
  destruct (Store.fault w _) as [e|]; [by intros [=]|]. cbn [Store.perform].
  assert (Hsel : select_updateFunc syncableType = None \/
                 exists s, (syncableType = model.GroupSyncableTypeTeam /\ s = store.Team \/
                            syncableType = model.GroupSyncableTypeChannel /\ s = store.Channel)).
  { unfold select_updateFunc.
    destruct (String.eqb syncableType model.GroupSyncableTypeTeam) eqn:HT.
    { apply String.eqb_eq in HT. right. exists store.Team. by left. }
    destruct (String.eqb syncableType model.GroupSyncableTypeChannel) eqn:HC.
    { apply String.eqb_eq in HC. right. exists store.Channel. by right. }
    by left. }
  destruct Hsel as [-> | [s Hs]]; [by intros [=]|].
  rewrite (select_updateFunc_supported _ s Hs). unfold invoke. cbn [run].
  set (P := Store.permittedAdmins w syncableID syncableType).
  set (w2 := (Store.serve _ w).2).
  assert (Hw2 : Store.members s w2 = Store.members s w) by by destruct s.
  clearbody w2 P.
  destruct (serve_UpdateMembersRole s syncableID P store.Equals true w2)
    as [[e ->] | (w3 & -> & Hgrant)]; [by intros [=]|].
  destruct (serve_UpdateMembersRole s syncableID P store.NotEquals false w3)
    as [[e ->] | (w4 & -> & Hrevoke)]; [by intros [=]|].
  intros [= <- <-].
  exists s, P. eexists. split; [done|]. split; [done|].
  by rewrite Hrevoke, Hgrant, Hw2.
Qed.

(** C1: after a successful run of [SyncSyncableRoles] on the reference
    store, for the team store as for the channel store, a member of the
    syncable is an admin if and only if it is among the permitted admins
    that the run has just queried; the run neither adds nor removes a
    member. *)
Theorem C1_admin_iff_permitted (w w' : Store.World) (syncableID : string)
    (syncableType : model.GroupSyncableType) (tr : list event) :
  run Store.serve (SyncSyncableRoles syncableID syncableType) w = (None, w', tr) ->
  exists s permittedAdmins tr',
    (syncableType = model.GroupSyncableTypeTeam /\ s = store.Team \/
     syncableType = model.GroupSyncableTypeChannel /\ s = store.Channel)
    /\ tr = Event (PermittedSyncableAdmins syncableID syncableType)
                  (permittedAdmins, None) :: tr'
    /\ (forall userID admin,
          Store.members s w' !! (syncableID, userID) = Some admin ->
          (admin = true <-> In userID permittedAdmins))
    /\ (forall userID,
          is_Some (Store.members s w' !! (syncableID, userID)) <->
          is_Some (Store.members s w !! (syncableID, userID))).
Proof.
  intros Hrun.
  destruct (run_SyncSyncableRoles_store _ _ _ _ _ Hrun)
    as (s & permittedAdmins & tr' & Hs & Htr & Hm).
  exists s, permittedAdmins, tr'. split; [done|]. split; [done|].
  split.
  - intros userID admin. rewrite Hm, lookup_grant_revoke.
    destruct (Store.members s w !! (syncableID, userID)); [|done].
    cbn. intros [= <-]. apply existsb_eqb_In.
  - intros userID. rewrite Hm, lookup_grant_revoke.
    by rewrite fmap_is_Some.
Qed.

Lemma C1_witness :
  let o := run Store.serve (SyncSyncableRoles "t1" "Team") (world_roles []) in
  (exists s permittedAdmins tr',
     ("Team" = model.GroupSyncableTypeTeam /\ s = store.Team \/
      "Team" = model.GroupSyncableTypeChannel /\ s = store.Channel)
     /\ trace o = Event (PermittedSyncableAdmins "t1" "Team") (permittedAdmins, None) :: tr'
     /\ (forall userID admin,
           Store.members s (final o) !! ("t1", userID) = Some admin ->
           (admin = true <-> In userID permittedAdmins))
     /\ (forall userID,
           is_Some (Store.members s (final o) !! ("t1", userID)) <->
           is_Some (Store.members s (world_roles []) !! ("t1", userID))))
  /\ Store.teamMembers (final o) !! ("t1", "u1") = Some true
  /\ Store.teamMembers (final o) !! ("t1", "u2") = Some false
  /\ Store.teamMembers (final o) !! ("t1", "u3") = Some false
  /\ Store.teamMembers (final o) !! ("t1", "u9") = None
  /\ Store.teamMembers (final o) !! ("t2", "u2") = Some true.
Proof.
  intros o. split.
  - apply (C1_admin_iff_permitted (world_roles []) (final o) "t1" "Team" (trace o)).
    vm_compute. reflexivity.
  - vm_compute. repeat split.
Defined.

(** ** The addition reconciler *)

(** The shape of every run of [CreateDefaultMemberships], by phases. *)
Lemma run_CreateDefaultMemberships {W : Type} (h : handler W) (since : Z) (w : W) :
  run h (CreateDefaultMemberships since) w =
  let '((teamMembers, appErr), w1) := h (TeamMembersToAdd since) w in
  match appErr with
  | Some e => (Some e, w1, [Event (TeamMembersToAdd since) (teamMembers, Some e)])
  | None =>
      let ev1 := Event (TeamMembersToAdd since) (teamMembers, None) in
      let '(r1, w2, tr1) := run h (for_range teamMembers addTeamMember_iteration) w1 in
      match r1 with
      | Some e => (Some e, w2, ev1 :: tr1)
      | None =>
          let '((channelMembers, appErr), w3) := h (ChannelMembersToAdd since) w2 in
          match appErr with
          | Some e =>
              (Some e, w3,
               ev1 :: tr1 ++ [Event (ChannelMembersToAdd since) (channelMembers, Some e)])
          | None =>
              let ev2 := Event (ChannelMembersToAdd since) (channelMembers, None) in
              let '(r2, w4, tr2) :=
                run h (for_range channelMembers addChannelMember_iteration) w3 in
              (r2, w4, ev1 :: tr1 ++ ev2 :: tr2)
          end
      end
  end.
Proof.
  unfold CreateDefaultMemberships. rewrite run_bind. unfold invoke at 1. cbn [run].
  destruct (h (TeamMembersToAdd since) w) as [[teamMembers [e|]] w1];
    cbn [run app]; [done|].
  rewrite run_bind.
  destruct (run h (for_range teamMembers addTeamMember_iteration) w1)
    as [[[e|] w2] tr1]; cbn [run app]; [by rewrite app_nil_r|].
  rewrite run_bind. unfold invoke at 1. cbn [run].
  destruct (h (ChannelMembersToAdd since) w2) as [[channelMembers [e|]] w3];
    cbn [run app]; [done|].
  rewrite run_bind.
  destruct (run h (for_range channelMembers addChannelMember_iteration) w3)
    as [[[e|] w4] tr2]; cbn [run app]; by rewrite app_nil_r.
Qed.

Lemma run_addTeamMember_iteration {W : Type} (h : handler W)
    (userTeam : UserTeamIDPair.t) (w : W) :
  run h (addTeamMember_iteration userTeam) w =
  let add := AddTeamMember (UserTeamIDPair.TeamID userTeam)
                           (UserTeamIDPair.UserID userTeam) in
  let '(err, w1) := h add w in
  match err with
  | Some e => (Some e, w1, [Event add (Some e)])
  | None =>
      (None,
       (h (event_call (log_added_teammember (UserTeamIDPair.UserID userTeam)
                                            (UserTeamIDPair.TeamID userTeam))) w1).2,
       team_member_added userTeam)
  end.
Proof.
  unfold addTeamMember_iteration. rewrite run_bind. unfold invoke at 1. cbn [run].
  destruct (h (AddTeamMember _ _) w) as [[e|] w1]; cbn [run app]; [done|].
  rewrite run_bind. unfold invoke. cbn [run event_call log_added_teammember].
  by destruct (h (LogInfo _ _) w1) as [[] w2].
Qed.

(** A team loop that runs to its end has added and logged every pair, in
    order, and has issued nothing else. *)
Lemma run_team_loop_completed {W : Type} (h : handler W)
    (teamMembers : list UserTeamIDPair.t) (w w' : W) (tr : list event) :
  run h (for_range teamMembers addTeamMember_iteration) w = (None, w', tr) ->
  tr = flat_map team_member_added teamMembers.
Proof.
  revert w tr. induction teamMembers as [|userTeam l IH]; intros w tr.
  - cbn. by intros [= _ <-].
  - rewrite run_for_range_cons, run_addTeamMember_iteration. cbv zeta.
    destruct (h (AddTeamMember _ _) w) as [[e|] w1]; [by intros [=]|].
    destruct (run h (for_range l addTeamMember_iteration) _) as [[r w2] tr2] eqn:Hl.
    intros [= -> -> <-]. cbn [flat_map team_member_added app]. do 2 f_equal. by eapply IH.
Qed.

(** C5: let [TeamMembersToAdd] return the pairs [l1 ++ p :: l2], let the
    pairs of [l1] be added and let the add-team-member command for [p] fail
    with [e].  Then [CreateDefaultMemberships] returns exactly [e]; its
    trace is the query, an add and a log entry for each pair of [l1], and
    the failed add, with which it ends: no pair of [l2] is processed and no
    command undoes an addition; the state is the one that these calls have
    produced. *)
Theorem C5_add_team_member_failure_aborts {W : Type} (h : handler W) (since : Z)
    (w : W) (l1 l2 : list UserTeamIDPair.t) (p : UserTeamIDPair.t)
    (w1 w2 w3 : W) (tr1 : list event) (e : AppError.t) :
  h (TeamMembersToAdd since) w = ((l1 ++ p :: l2, None), w1) ->
  run h (for_range l1 addTeamMember_iteration) w1 = (None, w2, tr1) ->
  h (AddTeamMember (UserTeamIDPair.TeamID p) (UserTeamIDPair.UserID p)) w2 = (Some e, w3) ->
  let failed :=
    Event (AddTeamMember (UserTeamIDPair.TeamID p) (UserTeamIDPair.UserID p)) (Some e) in
  let tr := Event (TeamMembersToAdd since) (l1 ++ p :: l2, None)
            :: flat_map team_member_added l1 ++ [failed] in
  run h (CreateDefaultMemberships since) w = (Some e, w3, tr)
  /\ w3 = replay h tr w.
Proof.
  intros Hq Hl1 Hp failed tr.
  assert (Hrun : run h (CreateDefaultMemberships since) w = (Some e, w3, tr)).
  { rewrite run_CreateDefaultMemberships, Hq. cbv zeta.
    rewrite run_for_range_app, Hl1, run_for_range_cons, run_addTeamMember_iteration.
    cbv zeta. rewrite Hp. by rewrite (run_team_loop_completed _ _ _ _ _ Hl1). }
  split; [done|].
  pose proof (run_final_replay h (CreateDefaultMemberships since) w) as Hf.
  by rewrite Hrun in Hf.
Qed.

Lemma C5_witness :
  let o := run Store.serve (CreateDefaultMemberships 0) world_team_additions in
  (o = (Some storage_down, final o,
        [Event (TeamMembersToAdd 0)
           ([UserTeamIDPair.Build "u1" "t1"; UserTeamIDPair.Build "u2" "t1";
             UserTeamIDPair.Build "u3" "t1"], None);
         Event (AddTeamMember "t1" "u1") None;
         log_added_teammember "u1" "t1";
         Event (AddTeamMember "t1" "u2") (Some storage_down)])
   /\ final o = replay Store.serve (trace o) world_team_additions)
  /\ Store.teamMembers (final o) !! ("t1", "u1") = Some false
  /\ Store.teamMembers (final o) !! ("t1", "u3") = None.
Proof.
  intros o. split.
  - exact (C5_add_team_member_failure_aborts Store.serve 0 world_team_additions
             [UserTeamIDPair.Build "u1" "t1"] [UserTeamIDPair.Build "u3" "t1"]
             (UserTeamIDPair.Build "u2" "t1")
             world_team_additions
             (run Store.serve
                (for_range [UserTeamIDPair.Build "u1" "t1"] addTeamMember_iteration)
                world_team_additions).1.2
             (run Store.serve
                (for_range [UserTeamIDPair.Build "u1" "t1"] addTeamMember_iteration)
                world_team_additions).1.2
             _ storage_down eq_refl eq_refl eq_refl).
  - vm_compute. by split.
Defined.

(** The shape of every run of one iteration of the channel loop. *)
Lemma run_addChannelMember_iteration {W : Type} (h : handler W)
    (userChannel : UserChannelIDPair.t) (w : W) :
  run h (addChannelMember_iteration userChannel) w =
  let userID := UserChannelIDPair.UserID userChannel in
  let get := GetChannel (UserChannelIDPair.ChannelID userChannel) in
  let '(r, w1) := h get w in
  match r with
  | inl e => (Some e, w1, [Event get (inl e)])
  | inr channel =>
      let teamID := Channel.TeamId channel in
      let '((tmem, err), w2) := h (GetTeamMember teamID userID) w1 in
      let lookup := [Event get (inr channel);
                     Event (GetTeamMember teamID userID) (tmem, err)] in
      if get_member_failed err then (err, w2, lookup) else
      let '(r3, w3, tr3) :=
        match tmem with
        | Some _ => (None, w2, [])
        | None =>
            let '(err, w3) := h (AddTeamMember teamID userID) w2 in
            match err with
            | Some e => (Some e, w3, [Event (AddTeamMember teamID userID) (Some e)])
            | None =>
                (None, (h (event_call (log_added_teammember userID teamID)) w3).2,
                 [Event (AddTeamMember teamID userID) None;
                  log_added_teammember userID teamID])
            end
        end in
      match r3 with
      | Some e => (Some e, w3, lookup ++ tr3)
      | None =>
          let add := AddChannelMember userID channel "" "" in
          let '(err, w4) := h add w3 in
          match err with
          | Some e =>
              if tolerated_conflict e
              then
                (None,
                 (h (event_call (log_added_channelmember userChannel))
                    (h (event_call (log_not_adding userChannel)) w4).2).2,
                 lookup ++ tr3 ++
                 [Event add (Some e); log_not_adding userChannel;
                  log_added_channelmember userChannel])
              else (Some e, w4, lookup ++ tr3 ++ [Event add (Some e)])
          | None =>
              (None, (h (event_call (log_added_channelmember userChannel)) w4).2,
               lookup ++ tr3 ++ [Event add None; log_added_channelmember userChannel])
          end
      end
  end.
Proof.
  unfold addChannelMember_iteration.
  cbn [event_call log_added_teammember log_not_adding log_added_channelmember].
  run_call.
  destruct (h (GetChannel _) w) as [[e|channel] w1]; cbn [run app]; [done|].
  run_call.
  destruct (h (GetTeamMember _ _) w1) as [[tmem err] w2]; cbn [run app].
  destruct (get_member_failed err); [done|].
  rewrite run_bind. destruct tmem as [tm|].
  - cbn [run app]. run_call.
    destruct (h (AddChannelMember _ _ _ _) w2) as [[e|] w4]; cbn [run app].
    + destruct (tolerated_conflict e); cbn [run app]; [|done].
      rewrite run_bind. run_call.
      destruct (h (LogInfo _ _) w4) as [[] w5]; cbn [run app fst snd].
      run_call. destruct (h (LogInfo _ _) w5) as [[] w6]; reflexivity.
    + rewrite run_bind. cbn [run].
      run_call. destruct (h (LogInfo _ _) w4) as [[] w6]; reflexivity.
  - run_call.
    destruct (h (AddTeamMember _ _) w2) as [[e|] w3]; cbn [run app]; [done|].
    run_call. destruct (h (LogInfo _ _) w3) as [[] w3']; cbn [run app fst snd].
    run_call.
    destruct (h (AddChannelMember _ _ _ _) w3') as [[e|] w4]; cbn [run app].
    + destruct (tolerated_conflict e); cbn [run app]; [|done].
      rewrite run_bind. run_call.
      destruct (h (LogInfo _ _) w4) as [[] w5]; cbn [run app fst snd].
      run_call. destruct (h (LogInfo _ _) w5) as [[] w6]; reflexivity.
    + rewrite run_bind. cbn [run].
      run_call. destruct (h (LogInfo _ _) w4) as [[] w6]; reflexivity.
Qed.

(** Once the channel loop has reached a pair, the run of the whole
    operation is the trace so far, the iteration for that pair and, unless
    the iteration returns, the loop over the remaining pairs. *)
Lemma run_reaches_pair {W : Type} (h : handler W) (since : Z) (w : W)
    (done : list UserChannelIDPair.t) (p : UserChannelIDPair.t)
    (rest : list UserChannelIDPair.t) (wp : W) (tr : list event) :
  reaches_pair h since w done p rest wp tr ->
  run h (CreateDefaultMemberships since) w =
  let '(rb, wb, trb) := run h (addChannelMember_iteration p) wp in
  match rb with
  | Some e => (Some e, wb, tr ++ trb)
  | None =>
      let '(r, w', tr') := run h (for_range rest addChannelMember_iteration) wb in
      (r, w', tr ++ trb ++ tr')
  end.
Proof.
  intros (teamMembers & w1 & tr1 & w2 & w3 & tr2 & Hq1 & Hl1 & Hq2 & Hdone & ->).
  rewrite run_CreateDefaultMemberships, Hq1. cbv zeta. rewrite Hl1, Hq2.
  rewrite run_for_range_app, Hdone, run_for_range_cons.
  destruct (run h (addChannelMember_iteration p) wp) as [[[e|] wb] trb].
  - by rewrite <- app_comm_cons, <- app_assoc.
  - destruct (run h (for_range rest addChannelMember_iteration) wb) as [[r w'] tr'].
    by rewrite <- !app_comm_cons, <- !app_assoc.
Qed.

(** *** Locating an event in an explicit trace *)

Lemma nil_eq_app_cons {A : Type} (pre post : list A) (x : A) :
  [] = pre ++ x :: post -> False.
Proof. by destruct pre. Qed.

Lemma cons_eq_app_cons {A : Type} (y : A) (l pre post : list A) (x : A) :
  y :: l = pre ++ x :: post ->
  (pre = [] /\ y = x /\ l = post) \/
  (exists pre', pre = y :: pre' /\ l = pre' ++ x :: post).
Proof.
  destruct pre as [|z pre]; cbn; intros [= -> ->]; [by left|].
  right. by exists pre.
Qed.

(** Walks down an explicit trace [H : e1 :: ... :: en :: [] = pre ++ ev ::
    post], discarding the positions at which the call differs from the
    call of [ev]. *)
Ltac locate_event H :=
  repeat first
    [ apply nil_eq_app_cons in H; contradiction
    | let Hev := fresh "Hev" in
      let Hpost := fresh "Hpost" in
      let pre' := fresh "pre" in
      apply cons_eq_app_cons in H;
      destruct H as [(-> & Hev & Hpost) | (pre' & -> & H)];
      [ try (apply (f_equal event_call) in Hev; discriminate Hev) | ] ].

(** A failed add-channel-member command within one iteration: either the
    tolerated conflict, then the two log entries follow and the iteration
    falls through, or any other error, then the iteration returns it at
    once. *)
Lemma addChannelMember_iteration_failed_add {W : Type} (h : handler W)
    (p : UserChannelIDPair.t) (wp : W) (pre post : list event)
    (userID : string) (channel : Channel.t) (requestorID postRootID : string)
    (e : AppError.t) :
  let o := run h (addChannelMember_iteration p) wp in
  trace o = pre ++ Event (AddChannelMember userID channel requestorID postRootID)
                     (Some e) :: post ->
  if tolerated_conflict e
  then result o = None /\ post = [log_not_adding p; log_added_channelmember p]
  else result o = Some e /\ post = [].
Proof.
  intros o. subst o. rewrite run_addChannelMember_iteration. cbv zeta.
  destruct (h (GetChannel _) wp) as [[e0|ch] w1].
  { intros H. cbn in H. locate_event H. }
  destruct (h (GetTeamMember _ _) w1) as [[tmem err] w2].
  destruct (get_member_failed err).
  { intros H. cbn in H. locate_event H. }
  destruct tmem as [tm|].
  - destruct (h (AddChannelMember _ _ _ _) w2) as [[e1|] w4].
    + destruct (tolerated_conflict e1) eqn:Htol; intros H; cbn in H; locate_event H;
        apply (f_equal event_error) in Hev; cbn in Hev; injection Hev as <-;
        rewrite Htol; by subst.
    + intros H; cbn in H; locate_event H.
      apply (f_equal event_error) in Hev; cbn in Hev. discriminate.
  - destruct (h (AddTeamMember _ _) w2) as [[e1|] w3].
    { intros H. cbn in H. locate_event H. }
    destruct (h (AddChannelMember _ _ _ _) _) as [[e1|] w4].
    + destruct (tolerated_conflict e1) eqn:Htol; intros H; cbn in H; locate_event H;
        apply (f_equal event_error) in Hev; cbn in Hev; injection Hev as <-;
        rewrite Htol; by subst.
    + intros H; cbn in H; locate_event H.
      apply (f_equal event_error) in Hev; cbn in Hev. discriminate.
Qed.

(** The test of line 66 holds exactly of the errors whose [Id] is
    ["api.channel.add_user.to.channel.failed.deleted.app_error"]. *)
Lemma tolerated_conflict_spec (e : AppError.t) :
  tolerated_conflict e = true <-> AppError.Id e = add_channel_member_deleted_id.
Proof. apply String.eqb_eq. Qed.

Lemma tolerated_conflict_false (e : AppError.t) :
  tolerated_conflict e = false <-> AppError.Id e <> add_channel_member_deleted_id.
Proof. apply String.eqb_neq. Qed.

(** C2: let the channel loop reach the pair [p] and let the
    add-channel-member command of its iteration fail with [e].  If the
    [Id] of [e] is that of the conflict "user has already left the team",
    ["api.channel.add_user.to.channel.failed.deleted.app_error"], the next
    event is the informational log entry about it and the operation goes on
    with the remaining pairs: its result is the result of the loop over
    them.  If [e] has any other [Id], the failed command is the last event
    of the operation and [e] is what the caller gets. *)
Theorem C2_tolerated_conflict_continues {W : Type} (h : handler W) (since : Z)
    (w : W) (done : list UserChannelIDPair.t) (p : UserChannelIDPair.t)
    (rest : list UserChannelIDPair.t) (wp : W) (tr : list event) :
  reaches_pair h since w done p rest wp tr ->
  let o := run h (addChannelMember_iteration p) wp in
  forall pre userID channel requestorID postRootID e post,
    trace o = pre ++ Event (AddChannelMember userID channel requestorID postRootID)
                       (Some e) :: post ->
    (AppError.Id e = add_channel_member_deleted_id ->
     (exists post', post = log_not_adding p :: post')
     /\ run h (CreateDefaultMemberships since) w =
        (let '(r, w', tr') :=
           run h (for_range rest addChannelMember_iteration) (final o) in
         (r, w', tr ++ trace o ++ tr')))
    /\ (AppError.Id e <> add_channel_member_deleted_id ->
        post = []
        /\ run h (CreateDefaultMemberships since) w = (Some e, final o, tr ++ trace o)).
Proof.
  intros Hreach o pre userID channel requestorID postRootID e post Hsplit.
  pose proof (run_reaches_pair _ _ _ _ _ _ _ _ Hreach) as Hrun.
  pose proof (addChannelMember_iteration_failed_add h p wp _ _ _ _ _ _ _ Hsplit) as Hit.
  fold o in Hrun, Hit. clearbody o. destruct o as [[rb wb] trb].
  unfold result, final, trace in *. cbn [fst snd] in *.
  destruct (tolerated_conflict e) eqn:Htol.
  - apply tolerated_conflict_spec in Htol. destruct Hit as [-> ->]. split.
    + intros _. split; [by eexists|]. exact Hrun.
    + intros Hne. by destruct Hne.
  - apply tolerated_conflict_false in Htol. destruct Hit as [-> ->]. split.
    + intros Hid. by destruct Htol.
    + intros _. split; [done|]. exact Hrun.
Qed.

Lemma C2_witness :
  let p1 := UserChannelIDPair.Build "u1" "c1" in
  let p2 := UserChannelIDPair.Build "u2" "c2" in
  let before := [Event (TeamMembersToAdd 0) ([], None);
                 Event (ChannelMembersToAdd 0) ([p1; p2], None)] in
  let o := run Store.serve (addChannelMember_iteration p1) world_left_team in
  let o' := run Store.serve (addChannelMember_iteration p1) world_channel_add_fails in
  (* the tolerated conflict *)
  ((exists post', [log_not_adding p1; log_added_channelmember p1] = log_not_adding p1 :: post')
   /\ run Store.serve (CreateDefaultMemberships 0) world_left_team =
      (let '(r, w', tr') :=
         run Store.serve (for_range [p2] addChannelMember_iteration) (final o) in
       (r, w', before ++ trace o ++ tr')))
  /\ result (run Store.serve (CreateDefaultMemberships 0) world_left_team) = None
  /\ Store.channelMembers
       (final (run Store.serve (CreateDefaultMemberships 0) world_left_team))
     !! ("c2", "u2") = Some false
  (* another failure of the same command *)
  /\ (@nil event = []
      /\ run Store.serve (CreateDefaultMemberships 0) world_channel_add_fails =
         (Some storage_down, final o', before ++ trace o')).
Proof.
  intros p1 p2 before o o'. refine (conj _ (conj _ (conj _ _))).
  - refine (proj1 (C2_tolerated_conflict_continues Store.serve 0 world_left_team
              [] p1 [p2] world_left_team before _
              [Event (GetChannel "c1") (inr (Channel.Build "c1" "t1"));
               Event (GetTeamMember "t1" "u1")
                 (Some (TeamMember.Build "t1" "u1" false), None)]
              "u1" (Channel.Build "c1" "t1") "" "" conflict_left_team
              [log_not_adding p1; log_added_channelmember p1] _) eq_refl).
    + exists [], world_left_team, [], world_left_team, world_left_team, [].
      repeat split; reflexivity.
    + reflexivity.
  - reflexivity.
  - reflexivity.
  - refine (proj2 (C2_tolerated_conflict_continues Store.serve 0 world_channel_add_fails
              [] p1 [p2] world_channel_add_fails before _
              [Event (GetChannel "c1") (inr (Channel.Build "c1" "t1"));
               Event (GetTeamMember "t1" "u1")
                 (Some (TeamMember.Build "t1" "u1" false), None)]
              "u1" (Channel.Build "c1" "t1") "" "" storage_down [] _) _).
    + exists [], world_channel_add_fails, [], world_channel_add_fails,
        world_channel_add_fails, [].
      repeat split; reflexivity.
    + reflexivity.
    + discriminate.
Defined.

(** C3: let the channel loop reach the pair [p], let its channel be found
    and let the team-membership lookup reply [(tmem, err)].  An error other
    than "no membership found" ends the operation at the lookup and is
    returned.  If there is no membership ([tmem] is nil, with the "no
    membership found" error or with none), the lookup is not a failure: the
    next command is the add-team-member command, and the add-channel-member
    command of the pair is issued only after it has succeeded and been
    logged; if it fails, the operation ends there with its error. *)
Theorem C3_team_membership_first {W : Type} (h : handler W) (since : Z)
    (w : W) (done : list UserChannelIDPair.t) (p : UserChannelIDPair.t)
    (rest : list UserChannelIDPair.t) (wp : W) (tr : list event)
    (channel : Channel.t) (w1 : W) (tmem : option TeamMember.t) (err : error)
    (w2 : W) :
  reaches_pair h since w done p rest wp tr ->
  h (GetChannel (UserChannelIDPair.ChannelID p)) wp = (inr channel, w1) ->
  h (GetTeamMember (Channel.TeamId channel) (UserChannelIDPair.UserID p)) w1
    = ((tmem, err), w2) ->
  let teamID := Channel.TeamId channel in
  let userID := UserChannelIDPair.UserID p in
  let lookup := [Event (GetChannel (UserChannelIDPair.ChannelID p)) (inr channel);
                 Event (GetTeamMember teamID userID) (tmem, err)] in
  let o := run h (CreateDefaultMemberships since) w in
  (forall e, err = Some e -> AppError.Id e <> team_member_missing_id ->
             o = (Some e, w2, tr ++ lookup))
  /\ (tmem = None ->
      err = None \/ (exists e, err = Some e /\ AppError.Id e = team_member_missing_id) ->
      match h (AddTeamMember teamID userID) w2 with
      | (Some e, w3) =>
          o = (Some e, w3, tr ++ lookup ++ [Event (AddTeamMember teamID userID) (Some e)])
      | (None, w3) =>
          exists r post,
            trace o = tr ++ lookup ++
                      Event (AddTeamMember teamID userID) None
                      :: log_added_teammember userID teamID
                      :: Event (AddChannelMember userID channel "" "") r
                      :: post
      end).
Proof.
  intros Hreach Hget Hmem teamID userID lookup o. subst o.
  rewrite (run_reaches_pair _ _ _ _ _ _ _ _ Hreach).
  rewrite run_addChannelMember_iteration. cbv zeta. rewrite Hget, Hmem.
  fold teamID userID lookup. split.
  - intros e -> Hid. unfold get_member_failed.
    apply String.eqb_neq in Hid. by rewrite Hid.
  - intros -> Herr.
    assert (Hok : get_member_failed err = false).
    { destruct Herr as [-> | (e & -> & Hid)]; [done|].
      unfold get_member_failed. apply String.eqb_eq in Hid. by rewrite Hid. }
    rewrite Hok.
    destruct (h (AddTeamMember teamID userID) w2) as [[e|] w3]; [done|].
    destruct (h (AddChannelMember userID channel "" "") _) as [[e|] w4].
    + destruct (tolerated_conflict e).
      * destruct (run h (for_range rest addChannelMember_iteration) _) as [[r w'] tr'].
        eexists _, _. subst lookup. cbn [trace snd app]. reflexivity.
      * eexists _, _. subst lookup. cbn [trace snd app]. reflexivity.
    + destruct (run h (for_range rest addChannelMember_iteration) _) as [[r w'] tr'].
      eexists _, _. subst lookup. cbn [trace snd app]. reflexivity.
Qed.

Lemma C3_witness :
  let p1 := UserChannelIDPair.Build "u1" "c1" in
  let p2 := UserChannelIDPair.Build "u2" "c2" in
  let c2 := Channel.Build "c2" "t1" in
  let first := run Store.serve (for_range [p1] addChannelMember_iteration)
                 world_left_team in
  exists r post,
    trace (run Store.serve (CreateDefaultMemberships 0) world_left_team) =
    (Event (TeamMembersToAdd 0) ([], None)
     :: Event (ChannelMembersToAdd 0) ([p1; p2], None) :: trace first)
    ++ [Event (GetChannel "c2") (inr c2);
        Event (GetTeamMember "t1" "u2")
          (None, Some (Store.not_found "SqlTeamStore.GetMember" team_member_missing_id))]
    ++ Event (AddTeamMember "t1" "u2") None
       :: log_added_teammember "u2" "t1"
       :: Event (AddChannelMember "u2" c2 "" "") r
       :: post.
Proof.
  intros p1 p2 c2 first.
  refine (proj2
            (C3_team_membership_first Store.serve 0 world_left_team
               [p1] p2 [] (final first) _ c2 (final first) None _ (final first)
               _ eq_refl eq_refl)
            eq_refl (or_intror (ex_intro _ _ (conj eq_refl eq_refl)))).
  exists [], world_left_team, [], world_left_team, world_left_team, (trace first).
  repeat split; reflexivity.
Defined.

(** C9, evaluated on the reference store: ["u1"] has left team ["t1"], so
    adding it to channel ["c1"] fails with the tolerated conflict.  The run
    logs that the user is not added and then, for the same pair, logs
    "added channelmember" although no membership exists afterwards. *)
Theorem C9_added_logged_after_tolerated_conflict :
  let p1 := UserChannelIDPair.Build "u1" "c1" in
  let o := run Store.serve (CreateDefaultMemberships 0) world_left_team in
  (exists pre post,
     trace o = pre ++ [Event (AddChannelMember "u1" (Channel.Build "c1" "t1") "" "")
                         (Some conflict_left_team);
                       log_not_adding p1;
                       log_added_channelmember p1] ++ post)
  /\ tolerated_conflict conflict_left_team = true
  /\ Store.channelMembers (final o) !! ("c1", "u1") = None.
Proof.
  intros p1 o. split; [|by vm_compute].
  eexists [_; _; _; _], _. vm_compute. reflexivity.
Qed.

(** ** The removal reconciler *)

(** The shape of every run of [DeleteGroupConstrainedMemberships], by
    phases. *)
Lemma run_DeleteGroupConstrainedMemberships {W : Type} (h : handler W) (w : W) :
  run h DeleteGroupConstrainedMemberships w =
  let '((channelMembers, appErr), w1) := h ChannelMembersToRemove w in
  match appErr with
  | Some e => (Some e, w1, [Event ChannelMembersToRemove (channelMembers, Some e)])
  | None =>
      let ev1 := Event ChannelMembersToRemove (channelMembers, None) in
      let '(r1, w2, tr1) :=
        run h (for_range channelMembers removeChannelMember_iteration) w1 in
      match r1 with
      | Some e => (Some e, w2, ev1 :: tr1)
      | None =>
          let '((teamMembers, appErr), w3) := h TeamMembersToRemove w2 in
          match appErr with
          | Some e =>
              (Some e, w3, ev1 :: tr1 ++ [Event TeamMembersToRemove (teamMembers, Some e)])
          | None =>
              let ev2 := Event TeamMembersToRemove (teamMembers, None) in
              let '(r2, w4, tr2) :=
                run h (for_range teamMembers removeTeamMember_iteration) w3 in
              (r2, w4, (ev1 :: tr1 ++ [ev2]) ++ tr2)
          end
      end
  end.
Proof.
  unfold DeleteGroupConstrainedMemberships. run_call.
  destruct (h ChannelMembersToRemove w) as [[channelMembers [e|]] w1];
    cbn [run app]; [done|].
  rewrite run_bind.
  destruct (run h (for_range channelMembers removeChannelMember_iteration) w1)
    as [[[e|] w2] tr1]; cbn [run app]; [by rewrite app_nil_r|].
  run_call.
  destruct (h TeamMembersToRemove w2) as [[teamMembers [e|]] w3];
    cbn [run app]; [done|].
  rewrite run_bind.
  destruct (run h (for_range teamMembers removeTeamMember_iteration) w3)
    as [[[e|] w4] tr2]; cbn [run app]; by rewrite app_nil_r, <- app_assoc.
Qed.

Lemma run_removeChannelMember_iteration {W : Type} (h : handler W)
    (userChannel : ChannelMember.t) (w : W) :
  run h (removeChannelMember_iteration userChannel) w =
  let get := GetChannel (ChannelMember.ChannelId userChannel) in
  let '(r, w1) := h get w in
  match r with
  | inl e => (Some e, w1, [Event get (inl e)])
  | inr channel =>
      let remove := RemoveUserFromChannel (ChannelMember.UserId userChannel) "" channel in
      let '(err, w2) := h remove w1 in
      match err with
      | Some e => (Some e, w2, [Event get (inr channel); Event remove (Some e)])
      | None =>
          let entry := LogInfo "removed channelmember"
                         [mlog.String "user_id" (ChannelMember.UserId userChannel);
                          mlog.String "channel_id" (Channel.Id channel)] in
          (None, (h entry w2).2,
           [Event get (inr channel); Event remove None; Event entry tt])
      end
  end.
Proof.
  unfold removeChannelMember_iteration. run_call.
  destruct (h (GetChannel _) w) as [[e|channel] w1]; cbn [run app]; [done|].
  run_call.
  destruct (h (RemoveUserFromChannel _ _ _) w1) as [[e|] w2]; cbn [run app]; [done|].
  run_call. destruct (h (LogInfo _ _) w2) as [[] w3]; reflexivity.
Qed.

Lemma run_removeTeamMember_iteration {W : Type} (h : handler W)
    (userTeam : TeamMember.t) (w : W) :
  run h (removeTeamMember_iteration userTeam) w =
  let remove := RemoveUserFromTeam (TeamMember.TeamId userTeam)
                                   (TeamMember.UserId userTeam) "" in
  let '(err, w1) := h remove w in
  match err with
  | Some e => (Some e, w1, [Event remove (Some e)])
  | None =>
      let entry := LogInfo "removed teammember"
                     [mlog.String "user_id" (TeamMember.UserId userTeam);
                      mlog.String "team_id" (TeamMember.TeamId userTeam)] in
      (None, (h entry w1).2, [Event remove None; Event entry tt])
  end.
Proof.
  unfold removeTeamMember_iteration. run_call.
  destruct (h (RemoveUserFromTeam _ _ _) w) as [[e|] w1]; cbn [run app]; [done|].
  run_call. destruct (h (LogInfo _ _) w1) as [[] w2]; reflexivity.
Qed.

(** A property of the events of every iteration holds of the events of the
    loop. *)
Lemma for_range_trace_Forall {W A : Type} (h : handler W) (body : A -> prog error)
    (P : event -> Prop) :
  (forall x w, Forall P (trace (run h (body x) w))) ->
  forall l w, Forall P (trace (run h (for_range l body) w)).
Proof.
  intros Hbody l. induction l as [|x l IH]; intros w; [by constructor|].
  rewrite run_for_range_cons. specialize (Hbody x w).
  destruct (run h (body x) w) as [[[e|] w1] tr1]; [done|].
  specialize (IH w1).
  destruct (run h (for_range l body) w1) as [[r w2] tr2].
  apply Forall_app. by split.
Qed.

(** The channel loop issues no team removal and the team loop no channel
    removal. *)
Lemma channel_removal_loop_trace {W : Type} (h : handler W)
    (l : list ChannelMember.t) (w : W) :
  Forall (fun ev => is_team_removal ev = false)
    (trace (run h (for_range l removeChannelMember_iteration) w)).
Proof.
  apply for_range_trace_Forall. clear. intros userChannel w.
  rewrite run_removeChannelMember_iteration. cbv zeta.
  destruct (h (GetChannel _) w) as [[e|channel] w1]; [by repeat constructor|].
  destruct (h (RemoveUserFromChannel _ _ _) w1) as [[e|] w2]; by repeat constructor.
Qed.

Lemma team_removal_loop_trace {W : Type} (h : handler W)
    (l : list TeamMember.t) (w : W) :
  Forall (fun ev => is_channel_removal ev = false)
    (trace (run h (for_range l removeTeamMember_iteration) w)).
Proof.
  apply for_range_trace_Forall. clear. intros userTeam w.
  rewrite run_removeTeamMember_iteration. cbv zeta.
  destruct (h (RemoveUserFromTeam _ _ _) w) as [[e|] w1]; by repeat constructor.
Qed.

(** Every run splits into a part without team removals followed by a part
    without channel removals. *)
Lemma removal_phases {W : Type} (h : handler W) (w : W) :
  exists tr1 tr2,
    trace (run h DeleteGroupConstrainedMemberships w) = tr1 ++ tr2
    /\ Forall (fun ev => is_team_removal ev = false) tr1
    /\ Forall (fun ev => is_channel_removal ev = false) tr2.
Proof.
  rewrite run_DeleteGroupConstrainedMemberships.
  destruct (h ChannelMembersToRemove w) as [[channelMembers [e|]] w1].
  { eexists _, []. rewrite app_nil_r. by repeat constructor. }
  cbv zeta. pose proof (channel_removal_loop_trace h channelMembers w1) as H1.
  destruct (run h (for_range channelMembers removeChannelMember_iteration) w1)
    as [[[e|] w2] tr1].
  { eexists _, []. rewrite app_nil_r. split; [done|]. split; by constructor. }
  destruct (h TeamMembersToRemove w2) as [[teamMembers [e|]] w3].
  { eexists _, []. rewrite app_nil_r. split; [done|]. split; [|by constructor].
    constructor; [done|]. apply Forall_app. split; [done | by repeat constructor]. }
  pose proof (team_removal_loop_trace h teamMembers w3) as H2.
  destruct (run h (for_range teamMembers removeTeamMember_iteration) w3)
    as [[r w4] tr2].
  eexists _, tr2. split; [done|]. split; [|done].
  constructor; [done|]. apply Forall_app. split; [done | by repeat constructor].
Qed.

Lemma removal_order (tr tr1 tr2 : list event) (i j : nat) (evc evt : event) :
  tr = tr1 ++ tr2 ->
  Forall (fun ev => is_team_removal ev = false) tr1 ->
  Forall (fun ev => is_channel_removal ev = false) tr2 ->
  tr !! i = Some evc -> is_channel_removal evc = true ->
  tr !! j = Some evt -> is_team_removal evt = true ->
  (i < j)%nat.
Proof.
  intros -> H1 H2 Hi Hc Hj Ht.
  destruct (decide (i < length tr1)%nat) as [Hlt|Hge].
  - destruct (decide (j < length tr1)%nat) as [Hjlt|Hjge]; [|lia].
    rewrite lookup_app_l in Hj by done.
    rewrite Forall_lookup in H1. specialize (H1 _ _ Hj). congruence.
  - rewrite lookup_app_r in Hi by lia.
    rewrite Forall_lookup in H2. specialize (H2 _ _ Hi). congruence.
Qed.

(** *** Removals on the reference store *)

Lemma store_removeChannelMember_iteration (userChannel : ChannelMember.t)
    (w w' : Store.World) (tr : list event) :
  run Store.serve (removeChannelMember_iteration userChannel) w = (None, w', tr) ->
  Store.channelMembers w' =
  delete (ChannelMember.ChannelId userChannel, ChannelMember.UserId userChannel)
         (Store.channelMembers w).
Proof.
  rewrite run_removeChannelMember_iteration. cbv zeta.
  unfold Store.serve at 1. destruct (Store.fault w _) as [e|]; [by intros [=]|].
  cbn [Store.perform]. destruct (Store.channels w !! _) as [teamID|]; [|by intros [=]].
  unfold Store.serve at 1. destruct (Store.fault w _) as [e|]; [by intros [=]|].
  cbn [Store.perform]. by intros [= <- _].
Qed.

Lemma store_removeTeamMember_iteration (userTeam : TeamMember.t)
    (w w' : Store.World) (r : error) (tr : list event) :
  run Store.serve (removeTeamMember_iteration userTeam) w = (r, w', tr) ->
  Store.channelMembers w' = Store.channelMembers w.
Proof.
  rewrite run_removeTeamMember_iteration. cbv zeta.
  unfold Store.serve at 1. destruct (Store.fault w _) as [e|]; [by intros [= _ <-]|].
  cbn [Store.perform]. by intros [= _ <- _].
Qed.

(** A channel loop that runs to its end leaves none of its pairs in the
    channel store, and adds nothing to it. *)
Lemma store_channel_removal_loop (l : list ChannelMember.t)
    (w w' : Store.World) (tr : list event) :
  run Store.serve (for_range l removeChannelMember_iteration) w = (None, w', tr) ->
  (forall key, Store.channelMembers w !! key = None ->
               Store.channelMembers w' !! key = None)
  /\ (forall m, In m l ->
        Store.channelMembers w' !! (ChannelMember.ChannelId m, ChannelMember.UserId m)
        = None).
Proof.
  revert w tr. induction l as [|m0 l IH]; intros w tr.
  - cbn. intros [= <- _]. by split.
  - rewrite run_for_range_cons.
    destruct (run Store.serve (removeChannelMember_iteration m0) w)
      as [[[e|] w1] tr1] eqn:Hm0; [by intros [=]|].
    apply store_removeChannelMember_iteration in Hm0.
    destruct (run Store.serve (for_range l removeChannelMember_iteration) w1)
      as [[r w2] tr2] eqn:Hl.
    intros [= -> -> _]. destruct (IH _ _ Hl) as [Hkeep Hgone]. split.
    + intros key Hkey. apply Hkeep. rewrite Hm0.
      destruct (decide ((ChannelMember.ChannelId m0, ChannelMember.UserId m0) = key))
        as [<-|Hne]; [apply lookup_delete_eq | by rewrite lookup_delete_ne].
    + intros m [<- | Hin]; [|by apply Hgone].
      apply Hkeep. rewrite Hm0. apply lookup_delete_eq.
Qed.

Lemma store_team_removal_loop (l : list TeamMember.t)
    (w w' : Store.World) (r : error) (tr : list event) :
  run Store.serve (for_range l removeTeamMember_iteration) w = (r, w', tr) ->
  Store.channelMembers w' = Store.channelMembers w.
Proof.
  revert w tr. induction l as [|m0 l IH]; intros w tr.
  - cbn. by intros [= _ <- _].
  - rewrite run_for_range_cons.
    destruct (run Store.serve (removeTeamMember_iteration m0) w)
      as [[[e|] w1] tr1] eqn:Hm0.
    + intros [= _ <- _]. by eapply store_removeTeamMember_iteration.
    + apply store_removeTeamMember_iteration in Hm0.
      destruct (run Store.serve (for_range l removeTeamMember_iteration) w1)
        as [[r' w2] tr2] eqn:Hl.
      intros [= -> <- _]. rewrite <- Hm0. by eapply IH.
Qed.

(** C4: in every run of [DeleteGroupConstrainedMemberships], against any
    implementation of the collaborators, each channel removal is issued
    before each team removal.  On the reference store, after a run that
    returns no error, none of the pairs that [ChannelMembersToRemove]
    returned is a member of its channel. *)
Theorem C4_channel_removals_first :
  (forall (W : Type) (h : handler W) (w : W) (i j : nat) (evc evt : event),
     let tr := trace (run h DeleteGroupConstrainedMemberships w) in
     tr !! i = Some evc -> is_channel_removal evc = true ->
     tr !! j = Some evt -> is_team_removal evt = true ->
     (i < j)%nat)
  /\ (forall (w w' : Store.World) (tr : list event),
        run Store.serve DeleteGroupConstrainedMemberships w = (None, w', tr) ->
        exists channelMembers tr',
          tr = Event ChannelMembersToRemove (channelMembers, None) :: tr'
          /\ forall m, In m channelMembers ->
               Store.channelMembers w'
                 !! (ChannelMember.ChannelId m, ChannelMember.UserId m) = None).
Proof.
  split.
  - intros W h w i j evc evt tr.
    destruct (removal_phases h w) as (tr1 & tr2 & Htr & H1 & H2).
    by apply (removal_order tr tr1 tr2).
  - intros w w' tr. rewrite run_DeleteGroupConstrainedMemberships.
    destruct (Store.serve ChannelMembersToRemove w) as [[channelMembers [e|]] w1] eqn:Hq;
      [by intros [=]|].
    assert (w1 = w) as ->.
    { unfold Store.serve in Hq. destruct (Store.fault w _); by injection Hq. }
    cbv zeta.
    destruct (run Store.serve (for_range channelMembers removeChannelMember_iteration) w)
      as [[[e|] w2] tr1] eqn:H1; [by intros [=]|].
    destruct (Store.serve TeamMembersToRemove w2) as [[teamMembers [e|]] w3] eqn:Hq2;
      [by intros [=]|].
    assert (w3 = w2) as ->.
    { unfold Store.serve in Hq2. destruct (Store.fault w2 _); by injection Hq2. }
    destruct (run Store.serve (for_range teamMembers removeTeamMember_iteration) w2)
      as [[r w4] tr2] eqn:H2.
    intros [= -> -> <-]. eexists _, _. split; [reflexivity|].
    intros m Hm. rewrite (store_team_removal_loop _ _ _ _ _ H2).
    by apply (store_channel_removal_loop _ _ _ _ H1).
Qed.

Lemma C4_witness :
  let o := run Store.serve DeleteGroupConstrainedMemberships world_removals in
  (trace o !! 2%nat
   = Some (Event (RemoveUserFromChannel "u1" "" (Channel.Build "c1" "t1")) None)
   /\ trace o !! 8%nat = Some (Event (RemoveUserFromTeam "t1" "u2" "") None)
   /\ (2 < 8)%nat)
  /\ exists channelMembers tr',
       trace o = Event ChannelMembersToRemove (channelMembers, None) :: tr'
       /\ forall m, In m channelMembers ->
            Store.channelMembers (final o)
              !! (ChannelMember.ChannelId m, ChannelMember.UserId m) = None.
Proof.
  intros o. split.
  - split; [reflexivity|]. split; [reflexivity|].
    exact (proj1 C4_channel_removals_first _ Store.serve world_removals 2%nat 8%nat
             _ _ eq_refl eq_refl eq_refl eq_refl).
  - apply (proj2 C4_channel_removals_first world_removals (final o) (trace o)).
    vm_compute. reflexivity.
Defined.

(** ** Running the addition reconciler twice on the reference store *)

#[local] Instance same_setting_equiv : Equivalence same_setting.
Proof.
  split.
  - by intros w.
  - intros w w' (H1 & H2 & H3 & H4). by repeat split.
  - intros w1 w2 w3 (H1 & H2 & H3 & H4) (H1' & H2' & H3' & H4').
    repeat split; congruence.
Qed.

#[local] Instance same_members_equiv : Equivalence same_members.
Proof.
  split.
  - by intros w.
  - intros w w' [H1 H2]. by split.
  - intros w1 w2 w3 [H1 H2] [H1' H2']. split; congruence.
Qed.

#[local] Instance members_included_preorder : PreOrder members_included.
Proof.
  split.
  - by intros w.
  - intros w1 w2 w3 [H1 H2] [H1' H2']. split; by etrans.
Qed.

Lemma same_members_included (w w' : Store.World) :
  same_members w w' -> members_included w w'.
Proof. intros [H1 H2]. split; by rewrite ?H1, ?H2. Qed.

Lemma add_member_subseteq (key : string * string) (m : gmap (string * string) bool) :
  m ⊆ Store.add_member key m.
Proof.
  unfold Store.add_member. destruct (m !! key) eqn:Hkey; [done|].
  by apply insert_subseteq.
Qed.

Lemma add_member_is_Some (key : string * string) (m : gmap (string * string) bool) :
  is_Some (Store.add_member key m !! key).
Proof.
  unfold Store.add_member. destruct (m !! key) eqn:Hkey; [by rewrite Hkey|].
  rewrite lookup_insert_eq. by eexists.
Qed.

Lemma add_member_present (key : string * string) (m : gmap (string * string) bool) :
  is_Some (m !! key) -> Store.add_member key m = m.
Proof. intros [admin Hkey]. unfold Store.add_member. by rewrite Hkey. Qed.

Lemma subseteq_is_Some (m m' : gmap (string * string) bool) (key : string * string) :
  m ⊆ m' -> is_Some (m !! key) -> is_Some (m' !! key).
Proof.
  intros Hsub [admin Hkey]. exists admin. by eapply lookup_weaken.
Qed.

Lemma with_teamMembers_id (w : Store.World) :
  Store.with_teamMembers (Store.teamMembers w) w = w.
Proof. by destruct w. Qed.

Lemma with_channelMembers_id (w : Store.World) :
  Store.with_channelMembers (Store.channelMembers w) w = w.
Proof. by destruct w. Qed.

(** What the reference store replies to the calls of the addition
    reconciler. *)
Lemma serve_TeamMembersToAdd (since : Z) (w : Store.World) :
  Store.serve (TeamMembersToAdd since) w =
  match Store.faults w (TeamMembersToAdd since) with
  | Some e => (([], Some e), w)
  | None => ((Store.teamMembersToAdd w since, None), w)
  end.
Proof. unfold Store.serve. cbn. by destruct (Store.faults w _). Qed.

Lemma serve_ChannelMembersToAdd (since : Z) (w : Store.World) :
  Store.serve (ChannelMembersToAdd since) w =
  match Store.faults w (ChannelMembersToAdd since) with
  | Some e => (([], Some e), w)
  | None => ((Store.channelMembersToAdd w since, None), w)
  end.
Proof. unfold Store.serve. cbn. by destruct (Store.faults w _). Qed.

Lemma serve_AddTeamMember (teamID userID : string) (w : Store.World) :
  Store.serve (AddTeamMember teamID userID) w =
  match Store.faults w (AddTeamMember teamID userID) with
  | Some e => (Some e, w)
  | None =>
      (None, Store.with_teamMembers
               (Store.add_member (teamID, userID) (Store.teamMembers w)) w)
  end.
Proof. unfold Store.serve. cbn. by destruct (Store.faults w _). Qed.

Lemma serve_GetChannel (channelID : string) (w : Store.World) :
  Store.serve (GetChannel channelID) w =
  match Store.faults w (GetChannel channelID) with
  | Some e => (inl e, w)
  | None =>
      match Store.channels w !! channelID with
      | Some teamID => (inr (Channel.Build channelID teamID), w)
      | None => (inl (Store.not_found "SqlChannelStore.Get"
                        "store.sql_channel.get.existing.app_error"), w)
      end
  end.
Proof. unfold Store.serve. cbn. by destruct (Store.faults w _). Qed.

Lemma serve_GetTeamMember (teamID userID : string) (w : Store.World) :
  Store.serve (GetTeamMember teamID userID) w =
  match Store.faults w (GetTeamMember teamID userID) with
  | Some e => ((None, Some e), w)
  | None =>
      match Store.teamMembers w !! (teamID, userID) with
      | Some admin => ((Some (TeamMember.Build teamID userID admin), None), w)
      | None => ((None, Some (Store.not_found "SqlTeamStore.GetMember"
                                team_member_missing_id)), w)
      end
  end.
Proof. unfold Store.serve. cbn. by destruct (Store.faults w _). Qed.

Lemma serve_AddChannelMember (userID : string) (channel : Channel.t)
    (requestorID postRootID : string) (w : Store.World) :
  Store.serve (AddChannelMember userID channel requestorID postRootID) w =
  match Store.faults w (AddChannelMember userID channel requestorID postRootID) with
  | Some e => (Some e, w)
  | None =>
      (None, Store.with_channelMembers
               (Store.add_member (Channel.Id channel, userID) (Store.channelMembers w)) w)
  end.
Proof. unfold Store.serve. cbn. by destruct (Store.faults w _). Qed.

Lemma serve_LogInfo (msg : string) (fields : list mlog.Field) (w : Store.World) :
  (Store.serve (LogInfo msg fields) w).2 =
  Store.with_log (Store.log w ++ [(msg, fields)]) w.
Proof. done. Qed.

Lemma replays_addTeamMember_iteration : replays addTeamMember_iteration.
Proof.
  intros p w wb rb tr. rewrite run_addTeamMember_iteration. cbv zeta.
  rewrite serve_AddTeamMember.
  destruct (Store.faults w (AddTeamMember _ _)) as [e|] eqn:Hf.
  - intros [= <- <- _]. split; [reflexivity|]. split; [reflexivity|].
    intros w' (_ & _ & _ & Hfaults) _ _. eexists _, _.
    rewrite run_addTeamMember_iteration. cbv zeta. rewrite serve_AddTeamMember.
    rewrite <- Hfaults, Hf. split; [reflexivity|]. split; reflexivity.
  - intros [= <- <- _]. cbn [event_call log_added_teammember].
    split; [done|]. split; [split; [apply add_member_subseteq | done]|].
    intros w' (_ & _ & _ & Hfaults) [Hteam _] _. eexists _, _.
    rewrite run_addTeamMember_iteration. cbv zeta. rewrite serve_AddTeamMember.
    cbn in Hfaults. rewrite <- Hfaults, Hf.
    rewrite add_member_present, with_teamMembers_id.
    + split; [reflexivity|]. by split.
    + eapply subseteq_is_Some; [exact Hteam|]. cbn. apply add_member_is_Some.
Qed.

(** Evaluates the calls of an iteration on the reference store, branching on
    the fault table and on the lookups of world [w]. *)
Ltac store_simpl_in H :=
  cbn [Store.faults Store.channels Store.teamMembers Store.channelMembers
       Store.with_log Store.with_teamMembers Store.with_channelMembers
       Channel.Id Channel.TeamId fst snd app event_call
       log_added_teammember log_not_adding log_added_channelmember] in H.

Ltac store_eval_in H w :=
  repeat
    (store_simpl_in H;
     rewrite ?serve_GetChannel, ?serve_GetTeamMember, ?serve_AddTeamMember,
       ?serve_AddChannelMember, ?serve_LogInfo in H;
     store_simpl_in H;
     match type of H with
     | context [match Store.faults w ?c with _ => _ end] =>
         let Hf := fresh "Hf" in destruct (Store.faults w c) as [?e|] eqn:Hf
     | context [match Store.channels w !! ?k with _ => _ end] =>
         let Hc := fresh "Hc" in destruct (Store.channels w !! k) as [?teamID|] eqn:Hc
     | context [match Store.teamMembers w !! ?k with _ => _ end] =>
         let Ht := fresh "Ht" in destruct (Store.teamMembers w !! k) as [?admin|] eqn:Ht
     | context [if get_member_failed ?x then _ else _] =>
         let Hg := fresh "Hg" in destruct (get_member_failed x) eqn:Hg
     | context [if tolerated_conflict ?x then _ else _] =>
         let Hg := fresh "Htol" in destruct (tolerated_conflict x) eqn:Hg
     end).

Ltac store_replay_in H w w' Hfa Hch :=
  repeat
    (store_simpl_in H;
     rewrite ?serve_GetChannel, ?serve_GetTeamMember, ?serve_AddTeamMember,
       ?serve_AddChannelMember, ?serve_LogInfo in H;
     store_simpl_in H;
     rewrite <- ?Hfa, <- ?Hch in H;
     repeat match goal with
            | Hx : Store.faults w _ = _ |- _ => rewrite Hx in H
            | Hx : Store.channels w !! _ = _ |- _ => rewrite Hx in H
            | Hx : get_member_failed _ = _ |- _ => rewrite Hx in H
            | Hx : tolerated_conflict _ = _ |- _ => rewrite Hx in H
            end;
     try match type of H with
     | context [match Store.teamMembers w' !! ?k with _ => _ end] =>
         let Ht := fresh "Ht'" in destruct (Store.teamMembers w' !! k) as [?admin|] eqn:Ht
     end).

(** A membership is present in the second world: it was looked up there,
    or it is included from the first world. *)
Ltac looked_up :=
  match goal with
  | H : ?m !! ?k = Some ?a |- is_Some (?m !! ?k) => by exists a
  end.

Ltac present :=
  first
    [ looked_up
    | eapply subseteq_is_Some; [eassumption|];
      first [ apply add_member_is_Some | looked_up ] ].

Lemma replays_addChannelMember_iteration : replays addChannelMember_iteration.
Proof.
  intros p w wb rb tr Hrun.
  rewrite run_addChannelMember_iteration in Hrun. cbv zeta in Hrun.
  store_eval_in Hrun w.
  all: try discriminate Hrun.
  all: try match goal with Hg : get_member_failed None = true |- _ => discriminate Hg end.
  all: injection Hrun as <- <- _.
  all: (split; [done|]).
  all: (split; [split; cbn; auto using add_member_subseteq; done|]).
  all: intros w' (Hch & _ & _ & Hfa) [HiT HiC] Hm; cbn in Hch, Hfa, HiT, HiC.
  all: destruct (run Store.serve (addChannelMember_iteration p) w')
         as [[r2 w2] tr2] eqn:Hrun2.
  all: rewrite run_addChannelMember_iteration in Hrun2; cbv zeta in Hrun2.
  all: store_replay_in Hrun2 w w' Hfa Hch.
  all: try (exfalso;
            match goal with
            | Hn : Store.teamMembers ?w2 !! ?k = None |- _ =>
                assert (is_Some (Store.teamMembers w2 !! k)) as [? Hs] by present;
                congruence
            end).
  all: try (exfalso; destruct Hm as [HmT HmC]; [done|]; cbn in HmT;
            rewrite <- HmT in *; congruence).
  all: injection Hrun2 as <- <- <-.
  all: eexists _, _.
  all: (split; [reflexivity|]).
  all: (split; [done|]).
  all: split; cbn; rewrite ?add_member_present by present; try done.
Qed.

(** A loop replays if its body does. *)
Lemma replays_for_range {A : Type} (body : A -> prog error) :
  replays body -> replays (fun l => for_range l body).
Proof.
  intros Hbody l. induction l as [|x l IH]; intros w wa r tr.
  - cbn. intros [= <- <- _]. split; [done|]. split; [done|].
    intros w' _ _ _. by exists w', [].
  - rewrite run_for_range_cons.
    destruct (run Store.serve (body x) w) as [[rb wb] trb] eqn:Hx.
    destruct (Hbody _ _ _ _ _ Hx) as (Hs & Hi & Hre). destruct rb as [e|].
    + intros [= <- <- _]. split; [done|]. split; [done|].
      intros w' Hs' Hi' Hm'. destruct (Hre w' Hs' Hi' Hm') as (w'' & tr' & Hx' & ? & ?).
      exists w'', tr'. rewrite run_for_range_cons, Hx'. by split.
    + destruct (run Store.serve (for_range l body) wb) as [[r' wa'] tr2] eqn:Hl.
      intros [= -> -> _]. destruct (IH _ _ _ _ Hl) as (Hs2 & Hi2 & Hre2).
      split; [by etrans|]. split; [by etrans|].
      intros w' Hs' Hi' Hm'.
      destruct (Hre w') as (w1' & tr1' & Hx' & Hs1' & Hm1');
        [by etrans | by etrans | done |].
      destruct (Hre2 w1') as (w2' & tr2' & Hl' & Hs2' & Hm2').
      { by etrans. }
      { etrans; [exact Hi'|]. by apply same_members_included. }
      { intros Hr. etrans; [by apply Hm'|done]. }
      exists w2', (tr1' ++ tr2'). rewrite run_for_range_cons, Hx', Hl'.
      split; [done|]. split; by etrans.
Qed.

(** Running [CreateDefaultMemberships] again, from the world in which a
    first run has ended, returns what the first run returned and changes
    no membership. *)
Lemma CreateDefaultMemberships_replay (since : Z) (w w1 : Store.World)
    (r : error) (tr : list event) :
  run Store.serve (CreateDefaultMemberships since) w = (r, w1, tr) ->
  exists w2 tr2,
    run Store.serve (CreateDefaultMemberships since) w1 = (r, w2, tr2)
    /\ same_members w1 w2.
Proof.
  pose proof (replays_for_range _ replays_addTeamMember_iteration) as Hteam.
  pose proof (replays_for_range _ replays_addChannelMember_iteration) as Hchan.
  rewrite run_CreateDefaultMemberships, serve_TeamMembersToAdd.
  destruct (Store.faults w (TeamMembersToAdd since)) as [e|] eqn:Hf1.
  { intros [= <- <- _]. eexists _, _.
    rewrite run_CreateDefaultMemberships, serve_TeamMembersToAdd, Hf1. by split. }
  cbv zeta.
  destruct (run Store.serve (for_range (Store.teamMembersToAdd w since)
                               addTeamMember_iteration) w)
    as [[r1 wt] tr1] eqn:Ht.
  destruct (Hteam _ _ _ _ _ Ht) as (Hs1 & Hi1 & Hre1). destruct r1 as [e|].
  { intros [= <- <- _].
    destruct (Hre1 wt) as (w2 & tr2 & Ht' & Hs2 & Hm2); [done..|].
    exists w2. eexists.
    rewrite run_CreateDefaultMemberships, serve_TeamMembersToAdd.
    destruct Hs1 as (_ & Hq & _ & Hfa). rewrite <- Hfa, Hf1, <- Hq. cbv zeta.
    rewrite Ht'. by split. }
  rewrite serve_ChannelMembersToAdd.
  destruct (Store.faults wt (ChannelMembersToAdd since)) as [e|] eqn:Hf2.
  { intros [= <- <- _].
    destruct (Hre1 wt) as (w2 & tr2 & Ht' & Hs2 & Hm2); [done..|].
    exists w2. eexists.
    rewrite run_CreateDefaultMemberships, serve_TeamMembersToAdd.
    destruct Hs1 as (_ & Hq & _ & Hfa). rewrite <- Hfa, Hf1, <- Hq. cbv zeta.
    rewrite Ht', serve_ChannelMembersToAdd.
    destruct Hs2 as (_ & _ & _ & Hfa2). rewrite <- Hfa2, Hf2. by split. }
  destruct (run Store.serve (for_range (Store.channelMembersToAdd wt since)
                               addChannelMember_iteration) wt)
    as [[r2 wc] tr2] eqn:Hc.
  destruct (Hchan _ _ _ _ _ Hc) as (Hs2 & Hi2 & Hre2).
  intros [= <- <- _].
  destruct (Hre1 wc) as (w3 & tr3 & Ht' & Hs3 & Hm3); [done | done | done |].
  destruct (Hre2 w3) as (w4 & tr4 & Hc' & Hs4 & Hm4);
    [done | by apply same_members_included | done |].
  exists w4. eexists.
  rewrite run_CreateDefaultMemberships, serve_TeamMembersToAdd.
  assert (Hs13 : same_setting w wc) by by etrans.
  destruct Hs13 as (_ & Hq & _ & Hfa). rewrite <- Hfa, Hf1, <- Hq. cbv zeta.
  rewrite Ht', serve_ChannelMembersToAdd.
  assert (Hs23 : same_setting wt w3) by by etrans.
  destruct Hs23 as (_ & _ & Hq2 & Hfa2). rewrite <- Hfa2, Hf2, <- Hq2.
  rewrite Hc'. split; [done|]. by etrans.
Qed.

(** C8: on the reference store, invoking [CreateDefaultMemberships] a
    second time with the same cursor leaves the team and channel
    memberships exactly as the first invocation left them, and returns what
    the first invocation returned: no error if the first returned none. *)
Theorem C8_second_run_changes_nothing (w : Store.World) (since : Z) :
  let o1 := run Store.serve (CreateDefaultMemberships since) w in
  let o2 := run Store.serve (CreateDefaultMemberships since) (final o1) in
  Store.teamMembers (final o2) = Store.teamMembers (final o1)
  /\ Store.channelMembers (final o2) = Store.channelMembers (final o1)
  /\ result o2 = result o1
  /\ (result o1 = None -> result o2 = None).
Proof.
  intros o1 o2. subst o1 o2.
  destruct (run Store.serve (CreateDefaultMemberships since) w) as [[r w1] tr] eqn:Ho1.
  unfold final, result. cbn [fst snd].
  destruct (CreateDefaultMemberships_replay _ _ _ _ _ Ho1) as (w2 & tr2 & -> & [HT HC]).
  cbn [fst snd]. by repeat split.
Qed.

Lemma C8_witness :
  let o1 := run Store.serve (CreateDefaultMemberships 0) world_left_team in
  let o2 := run Store.serve (CreateDefaultMemberships 0) (final o1) in
  (Store.teamMembers (final o2) = Store.teamMembers (final o1)
   /\ Store.channelMembers (final o2) = Store.channelMembers (final o1)
   /\ result o2 = result o1)
  /\ result o1 = None
  /\ result o2 = None
  /\ Store.teamMembers (final o1) !! ("t1", "u2") = Some false
  /\ Store.channelMembers (final o1) !! ("c2", "u2") = Some false.
Proof.
  intros o1 o2.
  destruct (C8_second_run_changes_nothing world_left_team 0) as (HT & HC & Hr & Hnone).
  split; [by repeat split|]. split; [reflexivity|].
  split; [exact (Hnone eq_refl)|]. by vm_compute.
Defined.

(** * Further properties of the three operations *)

(** ** Properties of every position of a trace *)

Lemma positions_from_spec (phi : list event -> event -> list event -> error -> Prop)
    (tr pre0 : list event) (r : error) :
  positions_from phi pre0 tr r ->
  forall pre ev post, tr = pre ++ ev :: post -> phi (pre0 ++ pre) ev post r.
Proof.
  revert pre0. induction tr as [|ev0 tr IH]; intros pre0 H pre ev post Heq.
  - by destruct pre.
  - destruct H as [H0 H]. destruct pre as [|ev1 pre]; cbn in Heq.
    + injection Heq as <- <-. by rewrite app_nil_r.
    + injection Heq as <- ->. specialize (IH _ H pre ev post eq_refl).
      by rewrite <- app_assoc in IH.
Qed.

Lemma positions_explicit (phi : list event -> event -> list event -> error -> Prop)
    (tr : list event) (r : error) :
  positions_from phi [] tr r -> positions phi tr r.
Proof. intros H pre ev post Heq. exact (positions_from_spec phi tr [] r H _ _ _ Heq). Qed.

Lemma positions_nil (phi : list event -> event -> list event -> error -> Prop)
    (r : error) :
  positions phi [] r.
Proof. intros pre ev post Heq. by destruct pre. Qed.

(** A part that does not return, followed by the rest of the run. *)
Lemma positions_app (phi : list event -> event -> list event -> error -> Prop)
    (tr1 tr2 : list event) (r : error) :
  framed phi ->
  positions phi tr1 None -> positions phi tr2 r -> positions phi (tr1 ++ tr2) r.
Proof.
  intros [Hpost Hpre] H1 H2 pre ev post Heq.
  apply app_eq_app in Heq as [l [[-> Hl] | [-> Hl]]].
  - destruct l as [|ev' l]; cbn in Hl.
    + pose proof (Hpre pre [] ev post r (H2 [] ev post (eq_sym Hl))) as H.
      by rewrite app_nil_r in H.
    + injection Hl as <- ->. apply Hpost. by eapply H1.
  - apply Hpre. by eapply H2.
Qed.

Lemma positions_cons (phi : list event -> event -> list event -> error -> Prop)
    (ev : event) (tr : list event) (r : error) :
  framed phi ->
  phi [] ev [] None -> positions phi tr r -> positions phi (ev :: tr) r.
Proof.
  intros Hf Hev Htr. apply (positions_app phi [ev] tr r Hf); [|done].
  apply positions_explicit. by split.
Qed.

Lemma positions_for_range {W A : Type} (h : handler W) (body : A -> prog error)
    (phi : list event -> event -> list event -> error -> Prop) :
  framed phi ->
  (forall x w, positions phi (trace (run h (body x) w)) (result (run h (body x) w))) ->
  forall l w,
    positions phi (trace (run h (for_range l body) w))
                  (result (run h (for_range l body) w)).
Proof.
  intros Hf Hbody l. induction l as [|x l IH]; intros w; [apply positions_nil|].
  rewrite run_for_range_cons. specialize (Hbody x w).
  destruct (run h (body x) w) as [[[e|] w1] tr1]; [done|].
  specialize (IH w1).
  destruct (run h (for_range l body) w1) as [[r w2] tr2].
  by apply positions_app.
Qed.

(** A property of every position of every iteration, and of the two
    queries, is a property of every position of every run of
    [CreateDefaultMemberships]. *)
Lemma CreateDefaultMemberships_positions {W : Type} (h : handler W)
    (phi : list event -> event -> list event -> error -> Prop) :
  framed phi ->
  (forall since x, phi [] (Event (TeamMembersToAdd since) x) [] x.2) ->
  (forall since x, phi [] (Event (ChannelMembersToAdd since) x) [] x.2) ->
  (forall p w, positions phi (trace (run h (addTeamMember_iteration p) w))
                             (result (run h (addTeamMember_iteration p) w))) ->
  (forall p w, positions phi (trace (run h (addChannelMember_iteration p) w))
                             (result (run h (addChannelMember_iteration p) w))) ->
  forall since w,
    positions phi (trace (run h (CreateDefaultMemberships since) w))
                  (result (run h (CreateDefaultMemberships since) w)).
Proof.
  intros Hf Hq1 Hq2 Hteam Hchan since w. rewrite run_CreateDefaultMemberships.
  destruct (h (TeamMembersToAdd since) w) as [[teamMembers [e|]] w1].
  { apply positions_explicit. split; [exact (Hq1 since (teamMembers, Some e)) | done]. }
  cbv zeta.
  pose proof (positions_for_range h _ phi Hf Hteam teamMembers w1) as H1.
  destruct (run h (for_range teamMembers addTeamMember_iteration) w1)
    as [[[e|] w2] tr1].
  { apply positions_cons; [done | exact (Hq1 since (teamMembers, None)) | done]. }
  assert (Hrest : forall tr2 r, positions phi tr2 r ->
            positions phi (Event (TeamMembersToAdd since) (teamMembers, None)
                           :: tr1 ++ tr2) r).
  { intros tr2 r H2. apply positions_cons;
      [done | exact (Hq1 since (teamMembers, None)) | by apply positions_app]. }
  destruct (h (ChannelMembersToAdd since) w2) as [[channelMembers [e|]] w3].
  { apply Hrest. apply positions_explicit.
    split; [exact (Hq2 since (channelMembers, Some e)) | done]. }
  pose proof (positions_for_range h _ phi Hf Hchan channelMembers w3) as H2.
  destruct (run h (for_range channelMembers addChannelMember_iteration) w3)
    as [[r2 w4] tr2].
  apply Hrest. apply positions_cons; [done | exact (Hq2 since (channelMembers, None)) | done].
Qed.

(** The same for [DeleteGroupConstrainedMemberships]. *)
Lemma DeleteGroupConstrainedMemberships_positions {W : Type} (h : handler W)
    (phi : list event -> event -> list event -> error -> Prop) :
  framed phi ->
  (forall x, phi [] (Event ChannelMembersToRemove x) [] x.2) ->
  (forall x, phi [] (Event TeamMembersToRemove x) [] x.2) ->
  (forall m w, positions phi (trace (run h (removeChannelMember_iteration m) w))
                             (result (run h (removeChannelMember_iteration m) w))) ->
  (forall m w, positions phi (trace (run h (removeTeamMember_iteration m) w))
                             (result (run h (removeTeamMember_iteration m) w))) ->
  forall w,
    positions phi (trace (run h DeleteGroupConstrainedMemberships w))
                  (result (run h DeleteGroupConstrainedMemberships w)).
Proof.
  intros Hf Hq1 Hq2 Hchan Hteam w. rewrite run_DeleteGroupConstrainedMemberships.
  destruct (h ChannelMembersToRemove w) as [[channelMembers [e|]] w1].
  { apply positions_explicit. split; [exact (Hq1 (channelMembers, Some e)) | done]. }
  cbv zeta.
  pose proof (positions_for_range h _ phi Hf Hchan channelMembers w1) as H1.
  destruct (run h (for_range channelMembers removeChannelMember_iteration) w1)
    as [[[e|] w2] tr1].
  { apply positions_cons; [done | exact (Hq1 (channelMembers, None)) | done]. }
  assert (Hrest : forall tr2 r, positions phi tr2 r ->
            positions phi (Event ChannelMembersToRemove (channelMembers, None)
                           :: tr1 ++ tr2) r).
  { intros tr2 r H2. apply positions_cons;
      [done | exact (Hq1 (channelMembers, None)) | by apply positions_app]. }
  destruct (h TeamMembersToRemove w2) as [[teamMembers [e|]] w3].
  { apply Hrest. apply positions_explicit.
    split; [exact (Hq2 (teamMembers, Some e)) | done]. }
  pose proof (positions_for_range h _ phi Hf Hteam teamMembers w3) as H2.
  destruct (run h (for_range teamMembers removeTeamMember_iteration) w3)
    as [[r2 w4] tr2].
  cbn [trace result fst snd app]. rewrite <- app_assoc. cbn [app].
  apply Hrest. apply positions_cons; [done | exact (Hq2 (teamMembers, None)) | done].
Qed.

(** Splits a run of an iteration, given by its shape lemma, into its cases:
    one per combination of replies of the collaborators. *)
Ltac iteration_cases h :=
  cbv zeta;
  repeat first
    [ match goal with
      | |- context [h ?c ?w] =>
          let x := fresh "x" in let w' := fresh "w" in destruct (h c w) as [x w']
      end
    | match goal with
      | |- context [match ?x with _ => _ end] => is_var x; destruct x
      end
    | match goal with
      | |- context [if get_member_failed ?x then _ else _] =>
          let Hg := fresh "Hg" in destruct (get_member_failed x) eqn:Hg
      | |- context [if tolerated_conflict ?x then _ else _] =>
          let Htol := fresh "Htol" in destruct (tolerated_conflict x) eqn:Htol
      end ];
  cbn [trace result fst snd app];
  apply positions_explicit; unfold team_member_added, team_member_removed;
  cbn [positions_from app];
  repeat match goal with
         | |- _ /\ _ => split
         | |- True => exact I
         end.

(** Every failed call of a run of [CreateDefaultMemberships], by the
    tests of lines 48 and 66. *)
Lemma CreateDefaultMemberships_failed_calls {W : Type} (h : handler W)
    (since : Z) (w : W) (pre post : list event) (ev : event) (e : AppError.t) :
  let o := run h (CreateDefaultMemberships since) w in
  trace o = pre ++ ev :: post ->
  event_error ev = Some e ->
  if tolerated_failure ev then post <> [] else post = [] /\ result o = Some e.
Proof.
  intros o Htr He. revert e He.
  refine (CreateDefaultMemberships_positions h
            (fun pre ev post r => forall e, event_error ev = Some e ->
               if tolerated_failure ev then post <> [] else post = [] /\ r = Some e)
            _ _ _ _ _ since w pre ev post Htr).
  - split.
    + intros pre0 ev0 post0 tr r H e He. specialize (H e He).
      destruct (tolerated_failure ev0); [by destruct post0 | by destruct H].
    + done.
  - intros since0 x e0 He. cbn in He |- *. by destruct x.
  - intros since0 x e0 He. cbn in He |- *. by destruct x.
  - intros p w0. rewrite run_addTeamMember_iteration. iteration_cases h.
    all: intros e0 He; cbn in He |- *; by simplify_eq.
  - intros p w0. rewrite run_addChannelMember_iteration. iteration_cases h.
    all: intros e0 He; cbn in He |- *; simplify_eq.
    all: repeat match goal with
                | H : get_member_failed _ = _ |- _ => cbn in H; revert H
                | H : tolerated_conflict _ = _ |- _ => rewrite H; clear H
                end.
    all: try destruct (String.eqb _ _); by intros.
Qed.

(** The two tolerated failures, by the [Id] of the error. *)
Lemma tolerated_failure_spec (ev : event) (e : AppError.t) :
  event_error ev = Some e ->
  tolerated_failure ev = true <->
  match event_call ev with
  | GetTeamMember _ _ => AppError.Id e = team_member_missing_id
  | AddChannelMember _ _ _ _ => AppError.Id e = add_channel_member_deleted_id
  | _ => False
  end.
Proof.
  unfold tolerated_failure. intros ->.
  destruct (event_call ev); try (split; [discriminate | done]).
  - apply String.eqb_eq.
  - apply tolerated_conflict_spec.
Qed.

(** X2: in every run of [CreateDefaultMemberships] a failed call is the
    last call of the run and its error is what the run returns, with two
    exceptions, after which the run goes on with at least one more call: a
    team-membership lookup that fails with an error whose [Id] is
    ["store.sql_team.get_member.missing.app_error"], and an
    add-channel-member command that fails with an error whose [Id] is
    ["api.channel.add_user.to.channel.failed.deleted.app_error"].  A
    failure of these two calls with any other [Id], and any failure of any
    other call, ends the run. *)
Theorem CreateDefaultMemberships_stops_at_first_failure {W : Type} (h : handler W)
    (since : Z) (w : W) (pre post : list event) (ev : event) (e : AppError.t) :
  let o := run h (CreateDefaultMemberships since) w in
  trace o = pre ++ ev :: post ->
  event_error ev = Some e ->
  let tolerated :=
    match event_call ev with
    | GetTeamMember _ _ => AppError.Id e = team_member_missing_id
    | AddChannelMember _ _ _ _ => AppError.Id e = add_channel_member_deleted_id
    | _ => False
    end in
  (tolerated -> post <> [])
  /\ (~ tolerated -> post = [] /\ result o = Some e).
Proof.
  intros o Htr He tolerated.
  pose proof (CreateDefaultMemberships_failed_calls h since w pre post ev e Htr He) as H.
  pose proof (tolerated_failure_spec ev e He) as Hs. fold tolerated in Hs.
  fold o in H. destruct (tolerated_failure ev).
  - split; [done|]. intros Hn. destruct Hn. by apply Hs.
  - split; [|done]. intros Ht. apply Hs in Ht. discriminate Ht.
Qed.

(** ** What the reconcilers return *)

Lemma last_error_app (tr1 tr2 : list event) (r : error) :
  None = last_error tr1 -> r = last_error tr2 -> r = last_error (tr1 ++ tr2).
Proof.
  unfold last_error. intros H1 H2. rewrite last_app.
  destruct (last tr2); [done | by subst r].
Qed.

Lemma last_error_cons (ev : event) (tr : list event) (r : error) :
  event_error ev = None -> r = last_error tr -> r = last_error (ev :: tr).
Proof. intros Hev. by apply (last_error_app [ev]). Qed.

Lemma for_range_last_error {W A : Type} (h : handler W) (body : A -> prog error) :
  (forall x w, result (run h (body x) w) = last_error (trace (run h (body x) w))) ->
  forall l w,
    result (run h (for_range l body) w) = last_error (trace (run h (for_range l body) w)).
Proof.
  intros Hbody l. induction l as [|x l IH]; intros w; [done|].
  rewrite run_for_range_cons. specialize (Hbody x w).
  destruct (run h (body x) w) as [[[e|] w1] tr1]; [done|].
  specialize (IH w1).
  destruct (run h (for_range l body) w1) as [[r w2] tr2].
  by apply last_error_app.
Qed.

Lemma addTeamMember_iteration_last_error {W : Type} (h : handler W)
    (p : UserTeamIDPair.t) (w : W) :
  result (run h (addTeamMember_iteration p) w)
  = last_error (trace (run h (addTeamMember_iteration p) w)).
Proof.
  rewrite run_addTeamMember_iteration. cbv zeta.
  by destruct (h (AddTeamMember _ _) w) as [[e|] w1].
Qed.

Lemma addChannelMember_iteration_last_error {W : Type} (h : handler W)
    (p : UserChannelIDPair.t) (w : W) :
  result (run h (addChannelMember_iteration p) w)
  = last_error (trace (run h (addChannelMember_iteration p) w)).
Proof.
  rewrite run_addChannelMember_iteration. cbv zeta.
  destruct (h (GetChannel _) w) as [[e|channel] w1]; [done|].
  destruct (h (GetTeamMember _ _) w1) as [[tmem err] w2].
  destruct (get_member_failed err) eqn:Hg; [by destruct err|].
  destruct tmem as [tm|].
  - destruct (h (AddChannelMember _ _ _ _) w2) as [[e|] w4]; [|done].
    by destruct (tolerated_conflict e).
  - destruct (h (AddTeamMember _ _) w2) as [[e|] w3]; [done|].
    destruct (h (AddChannelMember _ _ _ _) _) as [[e|] w4]; [|done].
    by destruct (tolerated_conflict e).
Qed.

(** X1: whatever the collaborators do, [CreateDefaultMemberships] returns
    the error component of the last call it has issued: the error of that
    call if it failed, nil if it succeeded.  The operation never makes up
    an error of its own and never returns the error of an earlier call. *)
Theorem CreateDefaultMemberships_returns_last_error {W : Type} (h : handler W)
    (since : Z) (w : W) :
  let o := run h (CreateDefaultMemberships since) w in
  trace o <> [] /\ result o = last_error (trace o).
Proof.
  intros o. subst o. rewrite run_CreateDefaultMemberships.
  destruct (h (TeamMembersToAdd since) w) as [[teamMembers [e|]] w1]; [done|].
  cbv zeta.
  pose proof (for_range_last_error h _ (addTeamMember_iteration_last_error h)
                teamMembers w1) as H1.
  destruct (run h (for_range teamMembers addTeamMember_iteration) w1)
    as [[[e|] w2] tr1].
  { split; [done|]. cbn in H1 |- *. unfold last_error in *.
    rewrite last_cons. by destruct (last tr1). }
  destruct (h (ChannelMembersToAdd since) w2) as [[channelMembers [e|]] w3].
  { split; [done|]. cbn in H1 |- *.
    apply last_error_cons; [done|]. by apply last_error_app. }
  pose proof (for_range_last_error h _ (addChannelMember_iteration_last_error h)
                channelMembers w3) as H2.
  destruct (run h (for_range channelMembers addChannelMember_iteration) w3)
    as [[r2 w4] tr2].
  split; [done|]. cbn in H1, H2 |- *.
  apply last_error_cons; [done|]. apply last_error_app; [done|].
  by apply last_error_cons.
Qed.

(** ** The log of the addition reconciler *)

(** X3: in every run of [CreateDefaultMemberships], each add-team-member
    command that succeeds is immediately followed by the log entry "added
    teammember" for its user and team, and each such log entry immediately
    follows a successful add-team-member command for the user and team it
    names. *)
Theorem team_additions_are_logged {W : Type} (h : handler W) (since : Z) (w : W) :
  let tr := trace (run h (CreateDefaultMemberships since) w) in
  (forall pre teamID userID post,
     tr = pre ++ Event (AddTeamMember teamID userID) None :: post ->
     exists post', post = log_added_teammember userID teamID :: post')
  /\ (forall pre fields post,
        tr = pre ++ Event (LogInfo "added teammember" fields) tt :: post ->
        exists pre' teamID userID,
          pre = pre' ++ [Event (AddTeamMember teamID userID) None]
          /\ fields = [mlog.String "user_id" userID; mlog.String "team_id" teamID]).
Proof.
  intros tr. subst tr. split.
  - intros pre teamID userID post Htr. apply head_Some.
    refine (CreateDefaultMemberships_positions h
              (fun pre ev post r =>
                 match event_call ev with
                 | AddTeamMember teamID userID =>
                     event_error ev = None ->
                     head post = Some (log_added_teammember userID teamID)
                 | _ => True
                 end) _ _ _ _ _ since w pre _ post Htr eq_refl).
    + split; [|done]. intros pre0 ev0 post0 tr r H.
      destruct (event_call ev0); try done. intros He.
      rewrite head_app, (H He). done.
    + done.
    + done.
    + intros p w0. rewrite run_addTeamMember_iteration. iteration_cases h.
      all: cbn; done.
    + intros p w0. rewrite run_addChannelMember_iteration. iteration_cases h.
      all: cbn; done.
  - intros pre fields post Htr.
    assert (exists teamID userID,
              last pre = Some (Event (AddTeamMember teamID userID) None)
              /\ fields = [mlog.String "user_id" userID; mlog.String "team_id" teamID])
      as (teamID & userID & Hlast & ->).
    2:{ apply last_Some in Hlast as [pre' ->]. by exists pre', teamID, userID. }
    refine (CreateDefaultMemberships_positions h
              (fun pre ev post r =>
                 match event_call ev with
                 | LogInfo msg fields =>
                     msg = "added teammember" ->
                     exists teamID userID,
                       last pre = Some (Event (AddTeamMember teamID userID) None)
                       /\ fields = [mlog.String "user_id" userID;
                                    mlog.String "team_id" teamID]
                 | _ => True
                 end) _ _ _ _ _ since w pre _ post Htr eq_refl).
    + split; [done|]. intros tr pre0 ev0 post0 r H.
      destruct (event_call ev0); try done. intros Hmsg.
      destruct (H Hmsg) as (teamID & userID & Hlast & ->).
      exists teamID, userID. split; [|done]. by rewrite last_app, Hlast.
    + done.
    + done.
    + intros p w0. rewrite run_addTeamMember_iteration. iteration_cases h.
      all: cbn; try done. all: intros _; by eexists _, _.
    + intros p w0. rewrite run_addChannelMember_iteration. iteration_cases h.
      all: cbn; try done. all: try (intros _; by eexists _, _).
Qed.

(** X4: in every run of [CreateDefaultMemberships], a team-membership
    lookup that returns a membership (even together with the "no membership
    found" error) is immediately followed by the add-channel-member command:
    no add-team-member command is issued for the pair.  The command gets the
    very channel that the preceding [GetChannel] returned, whose team is the
    team looked up, and empty requestor and post-root identifiers. *)
Theorem existing_team_membership_is_not_added_again {W : Type} (h : handler W)
    (since : Z) (w : W) (pre post : list event) (teamID userID : string)
    (tm : TeamMember.t) (err : error) :
  trace (run h (CreateDefaultMemberships since) w)
  = pre ++ Event (GetTeamMember teamID userID) (Some tm, err) :: post ->
  get_member_failed err = false ->
  exists pre' channelID channel r post',
    pre = pre' ++ [Event (GetChannel channelID) (inr channel)]
    /\ Channel.TeamId channel = teamID
    /\ post = Event (AddChannelMember userID channel "" "") r :: post'.
Proof.
  intros Htr Hg.
  assert (exists channelID channel r,
            last pre = Some (Event (GetChannel channelID) (inr channel))
            /\ Channel.TeamId channel = teamID
            /\ head post = Some (Event (AddChannelMember userID channel "" "") r))
    as (channelID & channel & r & Hlast & Hteam & Hhead).
  2:{ apply last_Some in Hlast as [pre' ->]. apply head_Some in Hhead as [post' ->].
      by exists pre', channelID, channel, r, post'. }
  refine (CreateDefaultMemberships_positions h
            (fun pre ev post r =>
               match as_GetTeamMember ev with
               | Some (teamID, userID, (Some _, err)) =>
                   get_member_failed err = false ->
                   exists channelID channel r,
                     last pre = Some (Event (GetChannel channelID) (inr channel))
                     /\ Channel.TeamId channel = teamID
                     /\ head post = Some (Event (AddChannelMember userID channel "" "") r)
               | _ => True
               end) _ _ _ _ _ since w pre _ post Htr Hg).
  - split.
    + intros pre0 ev0 post0 tr r H.
      destruct (as_GetTeamMember ev0) as [[[t u] [[m|] e]]|]; try done.
      intros He. destruct (H He) as (channelID & channel & r' & Hlast & Hteam & Hhead).
      exists channelID, channel, r'. split; [done|]. split; [done|].
      by rewrite head_app, Hhead.
    + intros tr pre0 ev0 post0 r H.
      destruct (as_GetTeamMember ev0) as [[[t u] [[m|] e]]|]; try done.
      intros He. destruct (H He) as (channelID & channel & r' & Hlast & Hteam & Hhead).
      exists channelID, channel, r'. split; [|done]. by rewrite last_app, Hlast.
  - done.
  - done.
  - intros p w0. rewrite run_addTeamMember_iteration. iteration_cases h.
    all: cbn; done.
  - intros p w0. rewrite run_addChannelMember_iteration. iteration_cases h.
    all: cbn; try done.
    all: try (intros Hf; congruence).
    all: intros _; by eexists _, _, _.
Qed.

Lemma existing_team_membership_witness :
  let tr := trace (run Store.serve (CreateDefaultMemberships 0) world_left_team) in
  exists pre' channelID channel r post',
    take 3 tr = pre' ++ [Event (GetChannel channelID) (inr channel)]
    /\ Channel.TeamId channel = "t1"
    /\ drop 4 tr = Event (AddChannelMember "u1" channel "" "") r :: post'.
Proof.
  intros tr.
  exact (existing_team_membership_is_not_added_again Store.serve 0 world_left_team
           (take 3 tr) (drop 4 tr) "t1" "u1" (TeamMember.Build "t1" "u1" false) None
           eq_refl eq_refl).
Defined.

Lemma stops_at_first_failure_witness :
  (* a failed add-team-member command *)
  (let o := run Store.serve (CreateDefaultMemberships 0) world_team_additions in
   drop 4 (trace o) = [] /\ result o = Some storage_down)
  (* an add-channel-member command that fails with a storage error *)
  /\ (let o := run Store.serve (CreateDefaultMemberships 0) world_channel_add_fails in
      drop 5 (trace o) = [] /\ result o = Some storage_down)
  (* a team-membership lookup that fails with a storage error *)
  /\ (let o := run Store.serve (CreateDefaultMemberships 0) world_lookup_fails in
      drop 4 (trace o) = [] /\ result o = Some storage_down)
  (* the two tolerated failures *)
  /\ (let o := run Store.serve (CreateDefaultMemberships 0) world_left_team in
      drop 5 (trace o) <> [] /\ drop 9 (trace o) <> []).
Proof.
  refine (conj _ (conj _ (conj _ (conj _ _)))).
  - intros o.
    exact (proj2 (CreateDefaultMemberships_stops_at_first_failure Store.serve 0
                    world_team_additions (take 3 (trace o)) (drop 4 (trace o))
                    (Event (AddTeamMember "t1" "u2") (Some storage_down)) storage_down
                    eq_refl eq_refl) (fun H => H)).
  - intros o.
    refine (proj2 (CreateDefaultMemberships_stops_at_first_failure Store.serve 0
                     world_channel_add_fails (take 4 (trace o)) (drop 5 (trace o))
                     (Event (AddChannelMember "u1" (Channel.Build "c1" "t1") "" "")
                        (Some storage_down)) storage_down
                     eq_refl eq_refl) _).
    discriminate.
  - intros o.
    refine (proj2 (CreateDefaultMemberships_stops_at_first_failure Store.serve 0
                     world_lookup_fails (take 3 (trace o)) (drop 4 (trace o))
                     (Event (GetTeamMember "t1" "u1") (None, Some storage_down))
                     storage_down
                     eq_refl eq_refl) _).
    discriminate.
  - exact (proj1 (CreateDefaultMemberships_stops_at_first_failure Store.serve 0
                    world_left_team
                    (take 4 (trace (run Store.serve (CreateDefaultMemberships 0)
                                      world_left_team)))
                    (drop 5 (trace (run Store.serve (CreateDefaultMemberships 0)
                                      world_left_team)))
                    (Event (AddChannelMember "u1" (Channel.Build "c1" "t1") "" "")
                       (Some conflict_left_team)) conflict_left_team
                    eq_refl eq_refl) eq_refl).
  - exact (proj1 (CreateDefaultMemberships_stops_at_first_failure Store.serve 0
                    world_left_team
                    (take 8 (trace (run Store.serve (CreateDefaultMemberships 0)
                                      world_left_team)))
                    (drop 9 (trace (run Store.serve (CreateDefaultMemberships 0)
                                      world_left_team)))
                    (Event (GetTeamMember "t1" "u2")
                       (None, Some (Store.not_found "SqlTeamStore.GetMember"
                                      team_member_missing_id)))
                    (Store.not_found "SqlTeamStore.GetMember" team_member_missing_id)
                    eq_refl eq_refl) eq_refl).
Defined.

(** ** Runs of the addition reconciler that return no error *)

Lemma addChannelMember_iteration_completed {W : Type} (h : handler W)
    (p : UserChannelIDPair.t) (w w' : W) (tr : list event) :
  run h (addChannelMember_iteration p) w = (None, w', tr) ->
  fetched_channels tr = [UserChannelIDPair.ChannelID p]
  /\ channel_additions tr = [UserChannelIDPair.UserID p].
Proof.
  rewrite run_addChannelMember_iteration. cbv zeta.
  destruct (h (GetChannel _) w) as [[e|channel] w1]; [by intros [=]|].
  destruct (h (GetTeamMember _ _) w1) as [[tmem err] w2].
  destruct (get_member_failed err) eqn:Hg.
  { destruct err; [by intros [=] | done]. }
  destruct tmem as [tm|].
  - destruct (h (AddChannelMember _ _ _ _) w2) as [[e|] w4].
    + destruct (tolerated_conflict e); [|by intros [=]]. by intros [= _ <-].
    + by intros [= _ <-].
  - destruct (h (AddTeamMember _ _) w2) as [[e|] w3]; [by intros [=]|].
    destruct (h (AddChannelMember _ _ _ _) _) as [[e|] w4].
    + destruct (tolerated_conflict e); [|by intros [=]]. by intros [= _ <-].
    + by intros [= _ <-].
Qed.

Lemma channel_loop_completed {W : Type} (h : handler W)
    (channelMembers : list UserChannelIDPair.t) (w w' : W) (tr : list event) :
  run h (for_range channelMembers addChannelMember_iteration) w = (None, w', tr) ->
  fetched_channels tr = map UserChannelIDPair.ChannelID channelMembers
  /\ channel_additions tr = map UserChannelIDPair.UserID channelMembers.
Proof.
  revert w tr. induction channelMembers as [|p l IH]; intros w tr.
  - cbn. by intros [= _ <-].
  - rewrite run_for_range_cons.
    destruct (run h (addChannelMember_iteration p) w) as [[[e|] w1] tr1] eqn:Hp;
      [by intros [=]|].
    destruct (addChannelMember_iteration_completed _ _ _ _ _ Hp) as [Hf Ha].
    destruct (run h (for_range l addChannelMember_iteration) w1)
      as [[r w2] tr2] eqn:Hl.
    intros [= -> -> <-]. destruct (IH _ _ Hl) as [Hf2 Ha2].
    unfold fetched_channels, channel_additions in *.
    rewrite !omap_app, Hf, Ha, Hf2, Ha2. done.
Qed.

(** X5: a run of [CreateDefaultMemberships] that returns no error has
    issued, after the first query, an add-team-member command and a log
    entry for each pair that [TeamMembersToAdd] returned, in order and
    nothing else, and, after the second query, exactly one channel lookup
    and exactly one add-channel-member command for each pair that
    [ChannelMembersToAdd] returned, in order. *)
Theorem CreateDefaultMemberships_processes_every_pair {W : Type} (h : handler W)
    (since : Z) (w : W) :
  let o := run h (CreateDefaultMemberships since) w in
  result o = None ->
  exists teamMembers channelMembers tr2,
    trace o = Event (TeamMembersToAdd since) (teamMembers, None)
              :: flat_map team_member_added teamMembers
              ++ Event (ChannelMembersToAdd since) (channelMembers, None) :: tr2
    /\ fetched_channels tr2 = map UserChannelIDPair.ChannelID channelMembers
    /\ channel_additions tr2 = map UserChannelIDPair.UserID channelMembers.
Proof.
  intros o. subst o. rewrite run_CreateDefaultMemberships.
  destruct (h (TeamMembersToAdd since) w) as [[teamMembers [e|]] w1]; [by intros [=]|].
  cbv zeta.
  destruct (run h (for_range teamMembers addTeamMember_iteration) w1)
    as [[[e|] w2] tr1] eqn:H1; [by intros [=]|].
  destruct (h (ChannelMembersToAdd since) w2) as [[channelMembers [e|]] w3];
    [by intros [=]|].
  destruct (run h (for_range channelMembers addChannelMember_iteration) w3)
    as [[r2 w4] tr2] eqn:H2.
  cbn. intros ->. exists teamMembers, channelMembers, tr2.
  rewrite (run_team_loop_completed _ _ _ _ _ H1).
  split; [done|]. by eapply channel_loop_completed.
Qed.

Lemma processes_every_pair_witness :
  let o := run Store.serve (CreateDefaultMemberships 0) world_left_team in
  exists teamMembers channelMembers tr2,
    trace o = Event (TeamMembersToAdd 0) (teamMembers, None)
              :: flat_map team_member_added teamMembers
              ++ Event (ChannelMembersToAdd 0) (channelMembers, None) :: tr2
    /\ fetched_channels tr2 = map UserChannelIDPair.ChannelID channelMembers
    /\ channel_additions tr2 = map UserChannelIDPair.UserID channelMembers.
Proof.
  exact (CreateDefaultMemberships_processes_every_pair Store.serve 0
           world_left_team eq_refl).
Defined.

(** ** The removal reconciler: failures, log and completed runs *)

Lemma removeChannelMember_iteration_last_error {W : Type} (h : handler W)
    (m : ChannelMember.t) (w : W) :
  result (run h (removeChannelMember_iteration m) w)
  = last_error (trace (run h (removeChannelMember_iteration m) w)).
Proof.
  rewrite run_removeChannelMember_iteration. cbv zeta.
  destruct (h (GetChannel _) w) as [[e|channel] w1]; [done|].
  by destruct (h (RemoveUserFromChannel _ _ _) w1) as [[e|] w2].
Qed.

Lemma removeTeamMember_iteration_last_error {W : Type} (h : handler W)
    (m : TeamMember.t) (w : W) :
  result (run h (removeTeamMember_iteration m) w)
  = last_error (trace (run h (removeTeamMember_iteration m) w)).
Proof.
  rewrite run_removeTeamMember_iteration. cbv zeta.
  by destruct (h (RemoveUserFromTeam _ _ _) w) as [[e|] w1].
Qed.

Lemma DeleteGroupConstrainedMemberships_last_error {W : Type} (h : handler W) (w : W) :
  let o := run h DeleteGroupConstrainedMemberships w in
  trace o <> [] /\ result o = last_error (trace o).
Proof.
  intros o. subst o. rewrite run_DeleteGroupConstrainedMemberships.
  destruct (h ChannelMembersToRemove w) as [[channelMembers [e|]] w1]; [done|].
  cbv zeta.
  pose proof (for_range_last_error h _ (removeChannelMember_iteration_last_error h)
                channelMembers w1) as H1.
  destruct (run h (for_range channelMembers removeChannelMember_iteration) w1)
    as [[[e|] w2] tr1].
  { split; [done|]. cbn in H1 |- *. unfold last_error in *.
    rewrite last_cons. by destruct (last tr1). }
  destruct (h TeamMembersToRemove w2) as [[teamMembers [e|]] w3].
  { split; [done|]. cbn in H1 |- *.
    apply last_error_cons; [done|]. by apply last_error_app. }
  pose proof (for_range_last_error h _ (removeTeamMember_iteration_last_error h)
                teamMembers w3) as H2.
  destruct (run h (for_range teamMembers removeTeamMember_iteration) w3)
    as [[r2 w4] tr2].
  split; [done|]. cbn in H1, H2 |- *.
  apply last_error_cons; [done|]. apply last_error_app; [|done].
  by apply last_error_app.
Qed.

(** X6: in every run of [DeleteGroupConstrainedMemberships] a failed call,
    whichever it is, is the last call of the run and its error is what the
    run returns; and the run returns the error component of its last call,
    so it returns nil only if that call succeeded. *)
Theorem DeleteGroupConstrainedMemberships_stops_at_first_failure {W : Type}
    (h : handler W) (w : W) :
  let o := run h DeleteGroupConstrainedMemberships w in
  (trace o <> [] /\ result o = last_error (trace o))
  /\ forall pre ev post e,
       trace o = pre ++ ev :: post -> event_error ev = Some e ->
       post = [] /\ result o = Some e.
Proof.
  intros o. split; [apply DeleteGroupConstrainedMemberships_last_error|].
  intros pre ev post e Htr He. revert e He.
  refine (DeleteGroupConstrainedMemberships_positions h
            (fun pre ev post r => forall e, event_error ev = Some e ->
               post = [] /\ r = Some e)
            _ _ _ _ _ w pre ev post Htr).
  - split; [|done]. intros pre0 ev0 post0 tr r H e He. by destruct (H e He).
  - intros x e0 He. cbn in He |- *. by destruct x.
  - intros x e0 He. cbn in He |- *. by destruct x.
  - intros m w0. rewrite run_removeChannelMember_iteration. iteration_cases h.
    all: intros e0 He; cbn in He |- *; by simplify_eq.
  - intros m w0. rewrite run_removeTeamMember_iteration. iteration_cases h.
    all: intros e0 He; cbn in He |- *; by simplify_eq.
Qed.

Lemma removal_stops_witness :
  let o := run Store.serve DeleteGroupConstrainedMemberships world_removal_fails in
  drop 5 (trace o) = []
  /\ result o = Some (Store.not_found "SqlChannelStore.Get"
                       "store.sql_channel.get.existing.app_error").
Proof.
  intros o.
  exact (proj2 (DeleteGroupConstrainedMemberships_stops_at_first_failure
                  Store.serve world_removal_fails)
           (take 4 (trace o))
           (Event (GetChannel "c9")
              (inl (Store.not_found "SqlChannelStore.Get"
                      "store.sql_channel.get.existing.app_error")))
           (drop 5 (trace o)) _ eq_refl eq_refl).
Defined.

(** X7: in every run of [DeleteGroupConstrainedMemberships], a channel
    removal is issued with an empty requestor for the channel that the
    lookup just before it returned, and a team removal with an empty
    requestor; each removal that succeeds is immediately followed by its log
    entry, "removed channelmember" with the user and the identifier of that
    channel, or "removed teammember" with the user and the team; and each
    such log entry immediately follows the successful removal it names. *)
Theorem removals_are_logged {W : Type} (h : handler W) (w : W) :
  let tr := trace (run h DeleteGroupConstrainedMemberships w) in
  (forall pre userID requestor channel err post,
     tr = pre ++ Event (RemoveUserFromChannel userID requestor channel) err :: post ->
     requestor = ""
     /\ (exists pre' channelID,
           pre = pre' ++ [Event (GetChannel channelID) (inr channel)])
     /\ (err = None ->
         exists post', post = log_removed_channelmember userID channel :: post'))
  /\ (forall pre teamID userID requestor err post,
        tr = pre ++ Event (RemoveUserFromTeam teamID userID requestor) err :: post ->
        requestor = ""
        /\ (err = None ->
            exists post', post = log_removed_teammember userID teamID :: post'))
  /\ (forall pre fields post,
        tr = pre ++ Event (LogInfo "removed channelmember" fields) tt :: post ->
        exists pre' userID channel,
          pre = pre' ++ [Event (RemoveUserFromChannel userID "" channel) None]
          /\ fields = [mlog.String "user_id" userID;
                       mlog.String "channel_id" (Channel.Id channel)])
  /\ (forall pre fields post,
        tr = pre ++ Event (LogInfo "removed teammember" fields) tt :: post ->
        exists pre' teamID userID,
          pre = pre' ++ [Event (RemoveUserFromTeam teamID userID "") None]
          /\ fields = [mlog.String "user_id" userID; mlog.String "team_id" teamID]).
Proof.
  intros tr. subst tr.
  pose (phi := fun (pre : list event) (ev : event) (post : list event) (r : error) =>
    match event_call ev with
    | RemoveUserFromChannel userID requestor channel =>
        requestor = ""
        /\ (exists channelID, last pre = Some (Event (GetChannel channelID) (inr channel)))
        /\ (event_error ev = None ->
            head post = Some (log_removed_channelmember userID channel))
    | RemoveUserFromTeam teamID userID requestor =>
        requestor = ""
        /\ (event_error ev = None ->
            head post = Some (log_removed_teammember userID teamID))
    | LogInfo msg fields =>
        (msg = "removed channelmember" ->
         exists userID channel,
           last pre = Some (Event (RemoveUserFromChannel userID "" channel) None)
           /\ fields = [mlog.String "user_id" userID;
                        mlog.String "channel_id" (Channel.Id channel)])
        /\ (msg = "removed teammember" ->
            exists teamID userID,
              last pre = Some (Event (RemoveUserFromTeam teamID userID "") None)
              /\ fields = [mlog.String "user_id" userID; mlog.String "team_id" teamID])
    | _ => True
    end).
  assert (positions phi (trace (run h DeleteGroupConstrainedMemberships w))
            (result (run h DeleteGroupConstrainedMemberships w))) as Hphi.
  { apply DeleteGroupConstrainedMemberships_positions.
    - split.
      + intros pre ev post tr r. unfold phi.
        destruct (event_call ev); try done.
        * intros (Hreq & Hget & Hlog). split_and!; [done..|].
          intros He. by rewrite head_app, (Hlog He).
        * intros (Hreq & Hlog). split; [done|].
          intros He. by rewrite head_app, (Hlog He).
      + intros tr pre ev post r. unfold phi.
        destruct (event_call ev); try done.
        * intros (Hreq & (channelID & Hget) & Hlog). split_and!; [done| |done].
          exists channelID. by rewrite last_app, Hget.
        * intros [Hc Ht]. split.
          -- intros Hmsg. destruct (Hc Hmsg) as (userID & channel & Hlast & ->).
             exists userID, channel. split; [|done]. by rewrite last_app, Hlast.
          -- intros Hmsg. destruct (Ht Hmsg) as (teamID & userID & Hlast & ->).
             exists teamID, userID. split; [|done]. by rewrite last_app, Hlast.
    - done.
    - done.
    - intros m w0. rewrite run_removeChannelMember_iteration. iteration_cases h.
      all: unfold phi; cbn; try done.
      all: try (split_and!; try done; by eexists).
      split; [intros _; by eexists _, _ | done].
    - intros m w0. rewrite run_removeTeamMember_iteration. iteration_cases h.
      all: unfold phi; cbn; try done.
      split; [done | intros _; by eexists _, _]. }
  split_and!.
  - intros pre userID requestor channel err post Htr.
    destruct (Hphi _ _ _ Htr) as (Hreq & (channelID & Hget) & Hlog).
    split_and!; [done| |].
    + apply last_Some in Hget as [pre' ->]. by exists pre', channelID.
    + intros ->. apply head_Some. by apply Hlog.
  - intros pre teamID userID requestor err post Htr.
    destruct (Hphi _ _ _ Htr) as (Hreq & Hlog). split; [done|].
    intros ->. apply head_Some. by apply Hlog.
  - intros pre fields post Htr.
    destruct (Hphi _ _ _ Htr) as [Hc _].
    destruct (Hc eq_refl) as (userID & channel & Hlast & ->).
    apply last_Some in Hlast as [pre' ->]. by exists pre', userID, channel.
  - intros pre fields post Htr.
    destruct (Hphi _ _ _ Htr) as [_ Ht].
    destruct (Ht eq_refl) as (teamID & userID & Hlast & ->).
    apply last_Some in Hlast as [pre' ->]. by exists pre', teamID, userID.
Qed.

Lemma channel_removal_loop_completed {W : Type} (h : handler W)
    (channelMembers : list ChannelMember.t) (w w' : W) (tr : list event) :
  run h (for_range channelMembers removeChannelMember_iteration) w = (None, w', tr) ->
  exists channels,
    length channels = length channelMembers
    /\ tr = flat_map (fun p => channel_member_removed p.1 p.2)
              (zip channelMembers channels).
Proof.
  revert w tr. induction channelMembers as [|m l IH]; intros w tr.
  - cbn. intros [= _ <-]. by exists [].
  - rewrite run_for_range_cons, run_removeChannelMember_iteration. cbv zeta.
    destruct (h (GetChannel _) w) as [[e|channel] w1]; [by intros [=]|].
    destruct (h (RemoveUserFromChannel _ _ _) w1) as [[e|] w2]; [by intros [=]|].
    destruct (run h (for_range l removeChannelMember_iteration) _)
      as [[r w3] tr2] eqn:Hl.
    intros [= -> -> <-]. destruct (IH _ _ Hl) as (channels & Hlen & ->).
    exists (channel :: channels). split; [by cbn; rewrite Hlen | done].
Qed.

Lemma team_removal_loop_completed {W : Type} (h : handler W)
    (teamMembers : list TeamMember.t) (w w' : W) (tr : list event) :
  run h (for_range teamMembers removeTeamMember_iteration) w = (None, w', tr) ->
  tr = flat_map team_member_removed teamMembers.
Proof.
  revert w tr. induction teamMembers as [|m l IH]; intros w tr.
  - cbn. by intros [= _ <-].
  - rewrite run_for_range_cons, run_removeTeamMember_iteration. cbv zeta.
    destruct (h (RemoveUserFromTeam _ _ _) w) as [[e|] w1]; [by intros [=]|].
    destruct (run h (for_range l removeTeamMember_iteration) _)
      as [[r w2] tr2] eqn:Hl.
    intros [= -> -> <-]. cbn [flat_map team_member_removed app].
    do 2 f_equal. by eapply IH.
Qed.

(** X8: a run of [DeleteGroupConstrainedMemberships] that returns no error
    has made exactly these calls: the channel query; for each member it
    returned, in order, a lookup of the member's channel, the removal of the
    member's user from the channel that the lookup returned and the log
    entry; the team query; and for each member that one returned, in order,
    the removal of the user from the team and the log entry. *)
Theorem DeleteGroupConstrainedMemberships_processes_every_member {W : Type}
    (h : handler W) (w : W) :
  let o := run h DeleteGroupConstrainedMemberships w in
  result o = None ->
  exists channelMembers channels teamMembers,
    length channels = length channelMembers
    /\ trace o = Event ChannelMembersToRemove (channelMembers, None)
                 :: flat_map (fun p => channel_member_removed p.1 p.2)
                      (zip channelMembers channels)
                 ++ Event TeamMembersToRemove (teamMembers, None)
                 :: flat_map team_member_removed teamMembers.
Proof.
  intros o. subst o. rewrite run_DeleteGroupConstrainedMemberships.
  destruct (h ChannelMembersToRemove w) as [[channelMembers [e|]] w1]; [by intros [=]|].
  cbv zeta.
  destruct (run h (for_range channelMembers removeChannelMember_iteration) w1)
    as [[[e|] w2] tr1] eqn:H1; [by intros [=]|].
  destruct (h TeamMembersToRemove w2) as [[teamMembers [e|]] w3]; [by intros [=]|].
  destruct (run h (for_range teamMembers removeTeamMember_iteration) w3)
    as [[r2 w4] tr2] eqn:H2.
  cbn [result trace fst snd]. intros ->.
  destruct (channel_removal_loop_completed _ _ _ _ _ H1) as (channels & Hlen & ->).
  rewrite (team_removal_loop_completed _ _ _ _ _ H2).
  exists channelMembers, channels, teamMembers. split; [done|].
  cbn [app]. by rewrite <- app_assoc.
Qed.

Lemma processes_every_member_witness :
  let o := run Store.serve DeleteGroupConstrainedMemberships world_removals in
  exists channelMembers channels teamMembers,
    length channels = length channelMembers
    /\ trace o = Event ChannelMembersToRemove (channelMembers, None)
                 :: flat_map (fun p => channel_member_removed p.1 p.2)
                      (zip channelMembers channels)
                 ++ Event TeamMembersToRemove (teamMembers, None)
                 :: flat_map team_member_removed teamMembers.
Proof.
  exact (DeleteGroupConstrainedMemberships_processes_every_member Store.serve
           world_removals eq_refl).
Defined.

(** X9: when a call of the channel phase of
    [DeleteGroupConstrainedMemberships] fails (the channel query, a channel
    lookup or a channel removal), the run makes no call of the team phase:
    [TeamMembersToRemove] is not queried and no user is removed from a
    team. *)
Theorem failed_channel_phase_skips_team_phase {W : Type} (h : handler W) (w : W)
    (pre post : list event) (ev : event) (e : AppError.t) :
  let o := run h DeleteGroupConstrainedMemberships w in
  trace o = pre ++ ev :: post ->
  channel_phase_call ev = true ->
  event_error ev = Some e ->
  Forall (fun ev' => team_phase_call ev' = false) (trace o).
Proof.
  intros o Htr Hc He.
  assert (last (trace o) = Some ev) as Hlast.
  { cut (post = [] /\ result o = Some e);
      [intros [-> _]; by rewrite Htr, last_snoc|].
    revert e He.
    refine (DeleteGroupConstrainedMemberships_positions h
              (fun pre ev post r => forall e, event_error ev = Some e ->
                 post = [] /\ r = Some e)
              _ _ _ _ _ w pre ev post Htr).
    - split; [|done]. intros pre0 ev0 post0 tr r H e0 He0. by destruct (H e0 He0).
    - intros x e0 He0. cbn in He0 |- *. by destruct x.
    - intros x e0 He0. cbn in He0 |- *. by destruct x.
    - intros m w0. rewrite run_removeChannelMember_iteration. iteration_cases h.
      all: intros e0 He0; cbn in He0 |- *; by simplify_eq.
    - intros m w0. rewrite run_removeTeamMember_iteration. iteration_cases h.
      all: intros e0 He0; cbn in He0 |- *; by simplify_eq. }
  revert Hlast. clear Htr. subst o.
  rewrite run_DeleteGroupConstrainedMemberships.
  destruct (h ChannelMembersToRemove w) as [[channelMembers [e1|]] w1];
    [intros _; by repeat constructor|].
  cbv zeta.
  assert (forall l w0, Forall (fun ev' => team_phase_call ev' = false)
            (trace (run h (for_range l removeChannelMember_iteration) w0))) as Hloop1.
  { apply for_range_trace_Forall. clear. intros m w.
    rewrite run_removeChannelMember_iteration. cbv zeta.
    destruct (h (GetChannel _) w) as [[e|channel] w1]; [by repeat constructor|].
    destruct (h (RemoveUserFromChannel _ _ _) w1) as [[e|] w2]; by repeat constructor. }
  assert (forall l w0, Forall (fun ev' => channel_phase_call ev' = false)
            (trace (run h (for_range l removeTeamMember_iteration) w0))) as Hloop2.
  { apply for_range_trace_Forall. clear. intros m w.
    rewrite run_removeTeamMember_iteration. cbv zeta.
    destruct (h (RemoveUserFromTeam _ _ _) w) as [[e|] w1]; by repeat constructor. }
  specialize (Hloop1 channelMembers w1).
  destruct (run h (for_range channelMembers removeChannelMember_iteration) w1)
    as [[[e1|] w2] tr1]; [intros _; by constructor|].
  destruct (h TeamMembersToRemove w2) as [[teamMembers err] w3].
  assert (forall tr2,
            Forall (fun ev' => channel_phase_call ev' = false) tr2 ->
            last ((Event ChannelMembersToRemove (channelMembers, None)
                   :: tr1 ++ [Event TeamMembersToRemove (teamMembers, err)]) ++ tr2)
            = Some ev -> False) as Habs.
  { intros tr2 H2. rewrite last_app.
    destruct (last tr2) as [ev2|] eqn:Hl2.
    - intros [= ->]. apply last_Some in Hl2 as [tr2' ->].
      apply Forall_app in H2 as [_ H2]. apply Forall_inv in H2.
      cbv beta in H2. congruence.
    - rewrite app_comm_cons, last_snoc. intros [= <-]. done. }
  destruct err as [e2|].
  - intros Hlast. exfalso. apply (Habs []); [constructor|]. by rewrite app_nil_r.
  - specialize (Hloop2 teamMembers w3).
    destruct (run h (for_range teamMembers removeTeamMember_iteration) w3)
      as [[r2 w4] tr2].
    intros Hlast. exfalso. by apply (Habs tr2).
Qed.

Lemma failed_channel_phase_witness :
  let o := run Store.serve DeleteGroupConstrainedMemberships world_removal_fails in
  Forall (fun ev' => team_phase_call ev' = false) (trace o).
Proof.
  intros o.
  exact (failed_channel_phase_skips_team_phase Store.serve world_removal_fails
           (take 4 (trace o)) (drop 5 (trace o))
           (Event (GetChannel "c9")
              (inl (Store.not_found "SqlChannelStore.Get"
                      "store.sql_channel.get.existing.app_error")))
           _ eq_refl eq_refl eq_refl).
Defined.

(** ** The role synchronizer: all its runs *)

Lemma select_updateFunc_cases (syncableType : model.GroupSyncableType) :
  (select_updateFunc syncableType = None
   /\ syncableType <> model.GroupSyncableTypeTeam
   /\ syncableType <> model.GroupSyncableTypeChannel)
  \/ exists s, supported syncableType s
       /\ select_updateFunc syncableType =
          Some (fun id userIDs idEquality value =>
                  invoke (UpdateMembersRole s id userIDs idEquality value)).
Proof.
  unfold select_updateFunc, supported.
  destruct (String.eqb syncableType model.GroupSyncableTypeTeam) eqn:HT.
  { apply String.eqb_eq in HT. right. exists store.Team. split; [by left | done]. }
  destruct (String.eqb syncableType model.GroupSyncableTypeChannel) eqn:HC.
  { apply String.eqb_eq in HC. right. exists store.Channel. split; [by right | done]. }
  left. by apply String.eqb_neq in HT, HC.
Qed.

(** The four kinds of run of [SyncSyncableRoles]. *)
Lemma SyncSyncableRoles_runs {W : Type} (h : handler W) (w : W)
    (syncableID : string) (syncableType : model.GroupSyncableType) :
  let o := run h (SyncSyncableRoles syncableID syncableType) w in
  exists permittedAdmins,
    let query := PermittedSyncableAdmins syncableID syncableType in
    let entry := Event (log_permitted_admins syncableID syncableType permittedAdmins) tt in
    (exists e, result o = Some e /\ trace o = [Event query (permittedAdmins, Some e)])
    \/ (syncableType <> model.GroupSyncableTypeTeam
        /\ syncableType <> model.GroupSyncableTypeChannel
        /\ result o = Some (unsupported_syncable_type syncableType)
        /\ trace o = [Event query (permittedAdmins, None); entry])
    \/ (exists s, supported syncableType s /\
          let grant := UpdateMembersRole s syncableID permittedAdmins store.Equals true in
          let revoke := UpdateMembersRole s syncableID permittedAdmins store.NotEquals false in
          (exists e, result o = Some e
             /\ trace o = [Event query (permittedAdmins, None); entry;
                           Event grant (Some e)])
          \/ trace o = [Event query (permittedAdmins, None); entry;
                        Event grant None; Event revoke (result o)]).
Proof.
  intros o. subst o. rewrite run_SyncSyncableRoles. cbv zeta.
  destruct (h (PermittedSyncableAdmins syncableID syncableType) w)
    as [[permittedAdmins [e|]] w1]; exists permittedAdmins.
  { left. by exists e. }
  right.
  destruct (select_updateFunc_cases syncableType) as [(-> & HT & HC) | (s & Hs & ->)].
  { by left. }
  right. exists s. split; [done|]. unfold invoke. cbn [run].
  destruct (h (UpdateMembersRole s syncableID permittedAdmins store.Equals true) _)
    as [[e|] w3].
  { left. by exists e. }
  right.
  by destruct (h (UpdateMembersRole s syncableID permittedAdmins store.NotEquals false) w3)
    as [r w4].
Qed.

(** X10: every role update that a run of [SyncSyncableRoles] issues is for
    the syncable it was called with, on the store of the syncable's type
    (which is then Team or Channel), and with the list of users that the
    permitted-admins query of this run returned; it is either the grant
    (users in the list, admin), issued right after the query and its log
    entry, or the revocation (users not in the list, not admin), issued
    right after a grant that succeeded. *)
Theorem SyncSyncableRoles_updates_are_scoped {W : Type} (h : handler W) (w : W)
    (syncableID : string) (syncableType : model.GroupSyncableType)
    (pre post : list event) (s : store.Syncable) (id : string)
    (userIDs : list string) (idEquality : store.Equality) (value : bool)
    (err : error) :
  let o := run h (SyncSyncableRoles syncableID syncableType) w in
  trace o = pre ++ Event (UpdateMembersRole s id userIDs idEquality value) err :: post ->
  id = syncableID
  /\ supported syncableType s
  /\ exists granted,
       pre = Event (PermittedSyncableAdmins syncableID syncableType) (userIDs, None)
             :: Event (log_permitted_admins syncableID syncableType userIDs) tt
             :: granted
       /\ (idEquality = store.Equals /\ value = true /\ granted = []
           \/ idEquality = store.NotEquals /\ value = false
              /\ granted = [Event (UpdateMembersRole s syncableID userIDs
                                     store.Equals true) None]).
Proof.
  intros o Htr.
  destruct (SyncSyncableRoles_runs h w syncableID syncableType)
    as (permittedAdmins & Hruns).
  fold o in Hruns. cbv zeta in Hruns.
  destruct Hruns as [(e & _ & H) | [(_ & _ & _ & H) | (s0 & Hs & [(e & _ & H) | H])]];
    rewrite H in Htr; clear H; locate_event Htr.
  - apply (f_equal event_call) in Hev. injection Hev as <- <- <- <- <-.
    split_and!; [done..|]. exists []. split; [done|]. by left.
  - apply (f_equal event_call) in Hev. injection Hev as <- <- <- <- <-.
    split_and!; [done..|]. exists []. split; [done|]. by left.
  - apply (f_equal event_call) in Hev. injection Hev as <- <- <- <- <-.
    split_and!; [done..|]. eexists. split; [done|]. by right.
Qed.

Lemma updates_are_scoped_witness :
  let userIDs := ["u1"; "u9"] in
  "c1" = "c1"
  /\ supported "Channel" store.Channel
  /\ exists granted,
       [Event (PermittedSyncableAdmins "c1" "Channel") (userIDs, None);
        Event (log_permitted_admins "c1" "Channel" userIDs) tt;
        Event (UpdateMembersRole store.Channel "c1" userIDs store.Equals true) None]
       = Event (PermittedSyncableAdmins "c1" "Channel") (userIDs, None)
         :: Event (log_permitted_admins "c1" "Channel" userIDs) tt
         :: granted
       /\ (store.NotEquals = store.Equals /\ false = true /\ granted = []
           \/ store.NotEquals = store.NotEquals /\ false = false
              /\ granted = [Event (UpdateMembersRole store.Channel "c1" userIDs
                                     store.Equals true) None]).
Proof.
  intros userIDs.
  exact (SyncSyncableRoles_updates_are_scoped Store.serve (world_roles [])
           "c1" "Channel"
           [Event (PermittedSyncableAdmins "c1" "Channel") (userIDs, None);
            Event (log_permitted_admins "c1" "Channel" userIDs) tt;
            Event (UpdateMembersRole store.Channel "c1" userIDs store.Equals true) None]
           [] store.Channel "c1" userIDs store.NotEquals false None eq_refl).
Defined.

(** X11: a run of [SyncSyncableRoles] returns nil exactly when the syncable
    type is Team or Channel and the run consists of four calls that all
    succeeded: the permitted-admins query, its log entry, the grant and the
    revocation on the store of that type, both for the queried list. *)
Theorem SyncSyncableRoles_succeeds_iff {W : Type} (h : handler W) (w : W)
    (syncableID : string) (syncableType : model.GroupSyncableType) :
  let o := run h (SyncSyncableRoles syncableID syncableType) w in
  result o = None <->
  exists s permittedAdmins,
    supported syncableType s
    /\ trace o =
       [Event (PermittedSyncableAdmins syncableID syncableType) (permittedAdmins, None);
        Event (log_permitted_admins syncableID syncableType permittedAdmins) tt;
        Event (UpdateMembersRole s syncableID permittedAdmins store.Equals true) None;
        Event (UpdateMembersRole s syncableID permittedAdmins store.NotEquals false) None].
Proof.
  intros o.
  destruct (SyncSyncableRoles_runs h w syncableID syncableType)
    as (permittedAdmins & Hruns).
  fold o in Hruns. cbv zeta in Hruns.
  destruct Hruns as [(e & Hr & H) | [(_ & _ & Hr & H) | (s0 & Hs & [(e & Hr & H) | H])]].
  - rewrite Hr, H. split; [done|]. intros (s & l & _ & Heq).
    apply (f_equal length) in Heq. discriminate Heq.
  - rewrite Hr, H. split; [done|]. intros (s & l & _ & Heq).
    apply (f_equal length) in Heq. discriminate Heq.
  - rewrite Hr, H. split; [done|]. intros (s & l & _ & Heq).
    apply (f_equal length) in Heq. discriminate Heq.
  - rewrite H. split.
    + intros ->. by exists s0, permittedAdmins.
    + intros (s & l & _ & Heq).
      apply (f_equal (fun tr => last_error tr)) in Heq. exact Heq.
Qed.

(** ** What the operations never call *)

(** X12: each operation stays within its own calls.  A run of
    [CreateDefaultMemberships] issues only its two queries, with the
    [since] bound it was given, channel and team-membership lookups,
    additions and log entries, so never a removal or a role update; a run of
    [DeleteGroupConstrainedMemberships] issues only its two queries, channel
    lookups, removals and log entries, so never an addition or a role
    update; a run of [SyncSyncableRoles] issues only the permitted-admins
    query for its syncable, role updates for its syncable and the log entry,
    so never an addition or a removal. *)
Theorem operations_keep_to_their_calls {W : Type} (h : handler W) (w : W) :
  (forall since,
     Forall (fun ev => addition_call since ev = true)
       (trace (run h (CreateDefaultMemberships since) w)))
  /\ Forall (fun ev => removal_call ev = true)
       (trace (run h DeleteGroupConstrainedMemberships w))
  /\ (forall syncableID syncableType,
        Forall (fun ev => role_call syncableID syncableType ev = true)
          (trace (run h (SyncSyncableRoles syncableID syncableType) w))).
Proof.
  split_and!.
  - intros since. rewrite run_CreateDefaultMemberships.
    assert (Z.eqb since since = true) as Hsince by apply Z.eqb_refl.
    destruct (h (TeamMembersToAdd since) w) as [[teamMembers [e|]] w1];
      [by repeat constructor|].
    cbv zeta.
    assert (forall l w0, Forall (fun ev => addition_call since ev = true)
              (trace (run h (for_range l addTeamMember_iteration) w0))) as H1.
    { apply for_range_trace_Forall. clear. intros p w.
      rewrite run_addTeamMember_iteration. cbv zeta.
      destruct (h (AddTeamMember _ _) w) as [[e|] w1]; by repeat constructor. }
    assert (forall l w0, Forall (fun ev => addition_call since ev = true)
              (trace (run h (for_range l addChannelMember_iteration) w0))) as H2.
    { apply for_range_trace_Forall. clear. intros p w.
      rewrite run_addChannelMember_iteration. cbv zeta.
      repeat first
        [ match goal with
          | |- context [h ?c ?w] =>
              let x := fresh "x" in let w' := fresh "w" in destruct (h c w) as [x w']
          end
        | match goal with
          | |- context [match ?x with _ => _ end] => is_var x; destruct x
          end
        | match goal with
          | |- context [if ?b then _ else _] => destruct b
          end ];
      by repeat constructor. }
    specialize (H1 teamMembers w1).
    destruct (run h (for_range teamMembers addTeamMember_iteration) w1)
      as [[[e|] w2] tr1]; [by constructor|].
    destruct (h (ChannelMembersToAdd since) w2) as [[channelMembers [e|]] w3].
    { constructor; [done|]. apply Forall_app. split; [done|]. by repeat constructor. }
    specialize (H2 channelMembers w3).
    destruct (run h (for_range channelMembers addChannelMember_iteration) w3)
      as [[r2 w4] tr2].
    constructor; [done|]. apply Forall_app. split; [done|]. by constructor.
  - rewrite run_DeleteGroupConstrainedMemberships.
    destruct (h ChannelMembersToRemove w) as [[channelMembers [e|]] w1];
      [by repeat constructor|].
    cbv zeta.
    assert (forall l w0, Forall (fun ev => removal_call ev = true)
              (trace (run h (for_range l removeChannelMember_iteration) w0))) as H1.
    { apply for_range_trace_Forall. clear. intros m w.
      rewrite run_removeChannelMember_iteration. cbv zeta.
      destruct (h (GetChannel _) w) as [[e|channel] w1]; [by repeat constructor|].
      destruct (h (RemoveUserFromChannel _ _ _) w1) as [[e|] w2]; by repeat constructor. }
    assert (forall l w0, Forall (fun ev => removal_call ev = true)
              (trace (run h (for_range l removeTeamMember_iteration) w0))) as H2.
    { apply for_range_trace_Forall. clear. intros m w.
      rewrite run_removeTeamMember_iteration. cbv zeta.
      destruct (h (RemoveUserFromTeam _ _ _) w) as [[e|] w1]; by repeat constructor. }
    specialize (H1 channelMembers w1).
    destruct (run h (for_range channelMembers removeChannelMember_iteration) w1)
      as [[[e|] w2] tr1]; [by constructor|].
    destruct (h TeamMembersToRemove w2) as [[teamMembers [e|]] w3].
    { constructor; [done|]. apply Forall_app. split; [done|]. by repeat constructor. }
    specialize (H2 teamMembers w3).
    destruct (run h (for_range teamMembers removeTeamMember_iteration) w3)
      as [[r2 w4] tr2].
    apply Forall_app. split; [|done].
    constructor; [done|]. apply Forall_app. split; [done|]. by repeat constructor.
  - intros syncableID syncableType.
    assert (String.eqb syncableID syncableID = true) as Hid by apply String.eqb_refl.
    assert (String.eqb syncableType syncableType = true) as Hty
      by apply String.eqb_refl.
    destruct (SyncSyncableRoles_runs h w syncableID syncableType)
      as (permittedAdmins & Hruns).
    cbv zeta in Hruns.
    destruct Hruns
      as [(e & _ & ->) | [(_ & _ & _ & ->) | (s0 & Hs & [(e & _ & ->) | ->])]].
    all: repeat constructor; cbn; by rewrite ?Hid, ?Hty.
Qed.


(** ** The log of the channel additions *)

Lemma channel_addition_log_framed : framed channel_addition_log.
Proof.
  split.
  - intros pre [c x] post tr r. destruct c; try done. cbn.
    intros (Hrq & Hpr & channelID & Hlast & H). split_and!; [done..|].
    exists channelID. split; [done|]. destruct x as [e|].
    + destruct H as [Hyes Hno]. split.
      * intros Hid. destruct (Hyes Hid) as [post' ->]. by eexists.
      * intros Hid. by destruct (Hno Hid).
    + destruct H as [post' ->]. by eexists.
  - intros tr pre [c x] post r. destruct c; try done; cbn.
    + intros (Hrq & Hpr & channelID & Hlast & H). split_and!; [done..|].
      exists channelID. split; [|done].
      unfold fetched in *. by rewrite omap_app, last_app, Hlast.
    + intros [Ha Hn]. split.
      * intros Hmsg.
        destruct (Ha Hmsg) as (pre' & userID & channelID & channel & Hf & H).
        exists (tr ++ pre'), userID, channelID, channel. split; [done|].
        destruct H as [-> | (e & Hid & ->)].
        -- left. by rewrite app_assoc.
        -- right. exists e. split; [done|]. by rewrite app_assoc.
      * intros Hmsg.
        destruct (Hn Hmsg) as (pre' & userID & channelID & channel & e & Hf & Hid & ->).
        exists (tr ++ pre'), userID, channelID, channel, e.
        split_and!; [done..|]. by rewrite app_assoc.
Qed.

Ltac snoc_eq :=
  first [ exact (eq_refl ([] ++ _))
        | exact (eq_refl ([_] ++ _))
        | exact (eq_refl ([_; _] ++ _))
        | exact (eq_refl ([_; _; _] ++ _))
        | exact (eq_refl ([_; _; _; _] ++ _))
        | exact (eq_refl ([_; _; _; _; _] ++ _))
        | exact (eq_refl ([_; _; _; _; _; _] ++ _)) ].

Ltac solve_log :=
  first
    [ done
    | congruence
    | snoc_eq
    | match goal with
      | |- _ /\ _ => split; [|solve_log]; solve_log
      | |- _ \/ _ => first [left; solve_log | right; solve_log]
      | |- exists _, _ => eexists; solve_log
      | |- _ -> _ => intros ?; solve_log
      end ].

Lemma CreateDefaultMemberships_channel_addition_log {W : Type} (h : handler W)
    (since : Z) (w : W) :
  positions channel_addition_log
    (trace (run h (CreateDefaultMemberships since) w))
    (result (run h (CreateDefaultMemberships since) w)).
Proof.
  apply CreateDefaultMemberships_positions.
  - apply channel_addition_log_framed.
  - done.
  - done.
  - intros p w0. rewrite run_addTeamMember_iteration. iteration_cases h.
    all: cbn; done.
  - intros p w0. rewrite run_addChannelMember_iteration. iteration_cases h.
    all: repeat match goal with
                | H : tolerated_conflict _ = true |- _ =>
                    apply tolerated_conflict_spec in H
                | H : tolerated_conflict _ = false |- _ =>
                    apply tolerated_conflict_false in H
                end.
    all: cbn; try done.
    all: destruct p as [userID channelID]; cbn.
    all: solve_log.
Qed.

(** X13: the log of the channel additions, in every run of
    [CreateDefaultMemberships].  An add-channel-member command is issued
    with empty requestor and post root id, for the channel that the latest
    channel lookup returned.  If it succeeds, the next event is the log
    entry "added channelmember" for its user and the identifier looked up.
    If it fails with an error whose [Id] is
    ["api.channel.add_user.to.channel.failed.deleted.app_error"], the next
    two events are the entry "Not adding user to channel ..." and then, as
    the code has no [continue] there, the entry "added channelmember" all
    the same.  If it fails with an error of any other [Id], it is the last
    event of the run, which returns that error: no entry is logged.
    Conversely an entry "added channelmember" comes right after a
    successful command for its user, or right after the "Not adding" entry
    of a command for its user that failed with an error of that [Id]; and an
    entry "Not adding" comes right after a command that failed with an error
    of that [Id]. *)
Theorem channel_additions_are_logged {W : Type} (h : handler W) (since : Z) (w : W) :
  let o := run h (CreateDefaultMemberships since) w in
  (forall pre userID channel requestorID postRootID err post,
     trace o = pre ++ Event (AddChannelMember userID channel requestorID postRootID) err
                     :: post ->
     requestorID = "" /\ postRootID = ""
     /\ exists channelID,
          last (fetched pre) = Some (channelID, channel)
          /\ let p := UserChannelIDPair.Build userID channelID in
             match err with
             | None => exists post', post = log_added_channelmember p :: post'
             | Some e =>
                 (AppError.Id e = add_channel_member_deleted_id ->
                  exists post',
                    post = log_not_adding p :: log_added_channelmember p :: post')
                 /\ (AppError.Id e <> add_channel_member_deleted_id ->
                     post = [] /\ result o = Some e)
             end)
  /\ (forall pre fields post,
        trace o = pre ++ Event (LogInfo "added channelmember" fields) tt :: post ->
        exists pre' userID channelID channel,
          let p := UserChannelIDPair.Build userID channelID in
          Event (LogInfo "added channelmember" fields) tt = log_added_channelmember p
          /\ (pre = pre' ++ [Event (AddChannelMember userID channel "" "") None]
              \/ exists e,
                   AppError.Id e = add_channel_member_deleted_id
                   /\ pre = pre' ++ [Event (AddChannelMember userID channel "" "") (Some e);
                                     log_not_adding p]))
  /\ (forall pre fields post,
        trace o = pre ++ Event (LogInfo
                                  "Not adding user to channel because they have already left the team"
                                  fields) tt :: post ->
        exists pre' userID channelID channel e,
          Event (LogInfo
                   "Not adding user to channel because they have already left the team"
                   fields) tt
          = log_not_adding (UserChannelIDPair.Build userID channelID)
          /\ AppError.Id e = add_channel_member_deleted_id
          /\ pre = pre' ++ [Event (AddChannelMember userID channel "" "") (Some e)]).
Proof.
  intros o. subst o.
  pose proof (CreateDefaultMemberships_channel_addition_log h since w) as Hlog.
  split_and!.
  - intros pre userID channel requestorID postRootID err post Htr.
    exact (Hlog _ _ _ Htr).
  - intros pre fields post Htr. exact (proj1 (Hlog _ _ _ Htr) eq_refl).
  - intros pre fields post Htr. exact (proj2 (Hlog _ _ _ Htr) eq_refl).
Qed.

(** ** Writes follow the queries, also in runs that fail *)

Lemma for_range_omap_prefix {W A B : Type} (h : handler W) (body : A -> prog error)
    (obs : event -> option B) (f : A -> B) :
  (forall x w,
     let o := run h (body x) w in
     omap obs (trace o) `prefix_of` [f x]
     /\ (result o = None -> omap obs (trace o) = [f x])) ->
  forall l w,
    let o := run h (for_range l body) w in
    omap obs (trace o) `prefix_of` map f l
    /\ (result o = None -> omap obs (trace o) = map f l).
Proof.
  intros Hbody l. induction l as [|x l IH]; intros w; [done|].
  cbv zeta. rewrite run_for_range_cons.
  destruct (Hbody x w) as [Hp He].
  destruct (run h (body x) w) as [[[e|] w1] tr1]; cbn in Hp, He |- *.
  { split; [|done]. etrans; [exact Hp|]. by apply (prefix_app_r _ [f x] (map f l)). }
  destruct (IH w1) as [Hp2 He2].
  destruct (run h (for_range l body) w1) as [[r w2] tr2]; cbn in Hp2, He2 |- *.
  rewrite omap_app, (He eq_refl). split.
  - by apply (prefix_app [f x]).
  - intros ->. by rewrite (He2 eq_refl).
Qed.

Lemma omap_Forall_None {A B : Type} (obs : A -> option B) (l : list A) :
  Forall (fun x => obs x = None) l -> omap obs l = [].
Proof. induction 1 as [|x l Hx _ IH]; [done|]. cbn. by rewrite Hx. Qed.

Ltac prefix_cases :=
  intros ? ?; cbv zeta;
  repeat first
    [ match goal with
      | |- context [run ?h (_ ?x) ?w] =>
          first [ rewrite run_addTeamMember_iteration
                | rewrite run_addChannelMember_iteration
                | rewrite run_removeChannelMember_iteration
                | rewrite run_removeTeamMember_iteration ]; cbv zeta
      end
    | match goal with
      | h : handler _ |- context [?h' ?c ?w] =>
          constr_eq h h';
          let x := fresh "x" in let w' := fresh "w" in destruct (h c w) as [x w']
      end
    | match goal with
      | |- context [match ?x with _ => _ end] => is_var x; destruct x
      end
    | match goal with
      | |- context [if ?b then _ else _] => destruct b eqn:?
      end ];
  cbn;
  repeat match goal with |- _ /\ _ => split end;
  first [ done | by apply prefix_nil | by repeat constructor
        | by intros; simplify_eq/= ].

(** X14: the removals of every run of [DeleteGroupConstrainedMemberships],
    also of one that fails, follow its queries.  The run starts with the
    query [ChannelMembersToRemove], and then one of two things holds.
    Either the run returns an error and everything after the query is
    channel lookups, channel removals and log entries: [TeamMembersToRemove]
    is never queried, nobody is removed from a team, and the channels
    looked up and the users removed from channels are those of the first
    members that the query returned, in order.  Or every channel member was
    looked up, removed and logged, in order, then [TeamMembersToRemove] was
    queried, and everything after that query is team removals and log
    entries, the removals being those of the first members that it
    returned, in order: no query is repeated and no channel is touched
    again. *)
Theorem removals_follow_the_queries {W : Type} (h : handler W) (w : W) :
  let o := run h DeleteGroupConstrainedMemberships w in
  exists channelMembers err rest,
    trace o = Event ChannelMembersToRemove (channelMembers, err) :: rest
    /\ ((result o <> None
         /\ Forall (fun ev => channel_removal_loop_call ev = true) rest
         /\ fetched_channels rest `prefix_of` map ChannelMember.ChannelId channelMembers
         /\ channel_removals rest `prefix_of` map ChannelMember.UserId channelMembers
         /\ team_removals rest = [])
        \/ exists channels teamMembers err' tr2,
             length channels = length channelMembers
             /\ rest = flat_map (fun p => channel_member_removed p.1 p.2)
                         (zip channelMembers channels)
                       ++ Event TeamMembersToRemove (teamMembers, err') :: tr2
             /\ Forall (fun ev => team_removal_loop_call ev = true) tr2
             /\ team_removals tr2
                `prefix_of` map (fun m => (TeamMember.TeamId m, TeamMember.UserId m))
                              teamMembers
             /\ fetched_channels tr2 = [] /\ channel_removals tr2 = []).
Proof.
  intros o. subst o. rewrite run_DeleteGroupConstrainedMemberships.
  destruct (h ChannelMembersToRemove w) as [[channelMembers [e|]] w1].
  { exists channelMembers, (Some e), []. split; [done|]. left.
    split_and!; [done|constructor|apply prefix_nil..|done]. }
  cbv zeta.
  pose proof (for_range_omap_prefix h removeChannelMember_iteration
                (fun ev => match event_call ev with
                           | GetChannel channelID => Some channelID
                           | _ => None
                           end)
                ChannelMember.ChannelId
                ltac:(prefix_cases) channelMembers w1) as [Hf _].
  pose proof (for_range_omap_prefix h removeChannelMember_iteration
                (fun ev => match event_call ev with
                           | RemoveUserFromChannel userID _ _ => Some userID
                           | _ => None
                           end)
                ChannelMember.UserId
                ltac:(prefix_cases) channelMembers w1) as [Hr _].
  pose proof (for_range_trace_Forall h removeChannelMember_iteration
                (fun ev => match event_call ev with
                           | RemoveUserFromTeam teamID userID _ => Some (teamID, userID)
                           | _ => None
                           end = None)
                ltac:(prefix_cases) channelMembers w1) as Ht.
  pose proof (for_range_trace_Forall h removeChannelMember_iteration
                (fun ev => channel_removal_loop_call ev = true)
                ltac:(prefix_cases) channelMembers w1) as Hc.
  apply omap_Forall_None in Ht.
  destruct (run h (for_range channelMembers removeChannelMember_iteration) w1)
    as [[[e|] w2] tr1] eqn:H1.
  { exists channelMembers, None, tr1. split; [done|]. by left. }
  destruct (channel_removal_loop_completed _ _ _ _ _ H1) as (channels & Hlen & ->).
  destruct (h TeamMembersToRemove w2) as [[teamMembers [e|]] w3].
  { eexists channelMembers, None, _. split; [done|]. right.
    exists channels, teamMembers, (Some e), [].
    split_and!; [done|done|constructor|apply prefix_nil|done|done]. }
  pose proof (for_range_omap_prefix h removeTeamMember_iteration
                (fun ev => match event_call ev with
                           | RemoveUserFromTeam teamID userID _ => Some (teamID, userID)
                           | _ => None
                           end)
                (fun m => (TeamMember.TeamId m, TeamMember.UserId m))
                ltac:(prefix_cases) teamMembers w3) as [Htr _].
  pose proof (for_range_trace_Forall h removeTeamMember_iteration
                (fun ev => match event_call ev with
                           | GetChannel channelID => Some channelID
                           | _ => None
                           end = None)
                ltac:(prefix_cases) teamMembers w3) as Hf2.
  pose proof (for_range_trace_Forall h removeTeamMember_iteration
                (fun ev => match event_call ev with
                           | RemoveUserFromChannel userID _ _ => Some userID
                           | _ => None
                           end = None)
                ltac:(prefix_cases) teamMembers w3) as Hr2.
  pose proof (for_range_trace_Forall h removeTeamMember_iteration
                (fun ev => team_removal_loop_call ev = true)
                ltac:(prefix_cases) teamMembers w3) as Hc2.
  apply omap_Forall_None in Hf2, Hr2.
  destruct (run h (for_range teamMembers removeTeamMember_iteration) w3)
    as [[r2 w4] tr2].
  eexists channelMembers, None, _. split.
  { cbn [trace snd app]. rewrite <- app_assoc. cbn [app]. reflexivity. }
  right. by exists channels, teamMembers, None, tr2.
Qed.

(** X15: the additions of every run of [CreateDefaultMemberships], also of
    one that fails, follow its queries.  The run starts with the query
    [TeamMembersToAdd], and then one of two things holds.  Either the run
    returns an error and everything after the query is add-team-member
    commands and log entries: [ChannelMembersToAdd] is never queried, no
    channel is looked up, nobody is added to a channel, and the commands
    are those of the first pairs that the query returned, in order.  Or
    every team pair was added and logged, in order, then
    [ChannelMembersToAdd] was queried, and everything after that query is
    the lookups, commands and log entries of the channel loop, no query
    being repeated; the channels looked up and the users of the
    add-channel-member commands are those of the first pairs that it
    returned, in order. *)
Theorem additions_follow_the_queries {W : Type} (h : handler W) (since : Z) (w : W) :
  let o := run h (CreateDefaultMemberships since) w in
  exists teamMembers err rest,
    trace o = Event (TeamMembersToAdd since) (teamMembers, err) :: rest
    /\ ((result o <> None
         /\ Forall (fun ev => team_addition_loop_call ev = true) rest
         /\ team_additions rest
            `prefix_of` map (fun p => (UserTeamIDPair.TeamID p, UserTeamIDPair.UserID p))
                          teamMembers
         /\ fetched_channels rest = [] /\ channel_additions rest = [])
        \/ exists channelMembers err' tr2,
             rest = flat_map team_member_added teamMembers
                    ++ Event (ChannelMembersToAdd since) (channelMembers, err') :: tr2
             /\ Forall (fun ev => channel_addition_loop_call ev = true) tr2
             /\ fetched_channels tr2
                `prefix_of` map UserChannelIDPair.ChannelID channelMembers
             /\ channel_additions tr2
                `prefix_of` map UserChannelIDPair.UserID channelMembers).
Proof.
  intros o. subst o. rewrite run_CreateDefaultMemberships.
  destruct (h (TeamMembersToAdd since) w) as [[teamMembers [e|]] w1].
  { exists teamMembers, (Some e), []. split; [done|]. left.
    split_and!; [done|constructor|apply prefix_nil|done..]. }
  cbv zeta.
  pose proof (for_range_omap_prefix h addTeamMember_iteration
                (fun ev => match event_call ev with
                           | AddTeamMember teamID userID => Some (teamID, userID)
                           | _ => None
                           end)
                (fun p => (UserTeamIDPair.TeamID p, UserTeamIDPair.UserID p))
                ltac:(prefix_cases) teamMembers w1) as [Ht _].
  pose proof (for_range_trace_Forall h addTeamMember_iteration
                (fun ev => match event_call ev with
                           | GetChannel channelID => Some channelID
                           | _ => None
                           end = None)
                ltac:(prefix_cases) teamMembers w1) as Hf.
  pose proof (for_range_trace_Forall h addTeamMember_iteration
                (fun ev => match event_call ev with
                           | AddChannelMember userID _ _ _ => Some userID
                           | _ => None
                           end = None)
                ltac:(prefix_cases) teamMembers w1) as Ha.
  pose proof (for_range_trace_Forall h addTeamMember_iteration
                (fun ev => team_addition_loop_call ev = true)
                ltac:(prefix_cases) teamMembers w1) as Hc.
  apply omap_Forall_None in Hf, Ha.
  destruct (run h (for_range teamMembers addTeamMember_iteration) w1)
    as [[[e|] w2] tr1] eqn:H1.
  { exists teamMembers, None, tr1. split; [done|]. by left. }
  rewrite (run_team_loop_completed _ _ _ _ _ H1).
  destruct (h (ChannelMembersToAdd since) w2) as [[channelMembers [e|]] w3].
  { eexists teamMembers, None, _. split; [done|]. right.
    exists channelMembers, (Some e), [].
    split_and!; [done|constructor|apply prefix_nil..]. }
  pose proof (for_range_omap_prefix h addChannelMember_iteration
                (fun ev => match event_call ev with
                           | GetChannel channelID => Some channelID
                           | _ => None
                           end)
                UserChannelIDPair.ChannelID
                ltac:(prefix_cases) channelMembers w3) as [Hf2 _].
  pose proof (for_range_omap_prefix h addChannelMember_iteration
                (fun ev => match event_call ev with
                           | AddChannelMember userID _ _ _ => Some userID
                           | _ => None
                           end)
                UserChannelIDPair.UserID
                ltac:(prefix_cases) channelMembers w3) as [Ha2 _].
  pose proof (for_range_trace_Forall h addChannelMember_iteration
                (fun ev => channel_addition_loop_call ev = true)
                ltac:(prefix_cases) channelMembers w3) as Hc2.
  destruct (run h (for_range channelMembers addChannelMember_iteration) w3)
    as [[r2 w4] tr2].
  eexists teamMembers, None, _. split; [done|].
  right. by exists channelMembers, None, tr2.
Qed.

(** ** The log properties at runs of the reference store *)

Lemma team_additions_logged_witness :
  let tr := trace (run Store.serve (CreateDefaultMemberships 0) world_team_additions) in
  exists post', drop 2 tr = log_added_teammember "u1" "t1" :: post'.
Proof.
  intros tr.
  exact (proj1 (team_additions_are_logged Store.serve 0 world_team_additions)
           (take 1 tr) "t1" "u1" (drop 2 tr) eq_refl).
Defined.

Lemma removals_logged_witness :
  let tr := trace (run Store.serve DeleteGroupConstrainedMemberships world_removals) in
  let channel := Channel.Build "c1" "t1" in
  "" = ""
  /\ (exists pre' channelID,
        take 2 tr = pre' ++ [Event (GetChannel channelID) (inr channel)])
  /\ (@None AppError.t = None ->
      exists post', drop 3 tr = log_removed_channelmember "u1" channel :: post').
Proof.
  intros tr channel.
  exact (proj1 (removals_are_logged Store.serve world_removals)
           (take 2 tr) "u1" "" channel None (drop 3 tr) eq_refl).
Defined.

Lemma channel_additions_logged_witness :
  let p := UserChannelIDPair.Build "u1" "c1" in
  (* the tolerated conflict is logged twice *)
  (let o := run Store.serve (CreateDefaultMemberships 0) world_left_team in
   exists post', drop 5 (trace o) = log_not_adding p :: log_added_channelmember p :: post')
  (* a storage error is not logged: it ends the run *)
  /\ (let o := run Store.serve (CreateDefaultMemberships 0) world_channel_add_fails in
      drop 5 (trace o) = [] /\ result o = Some storage_down).
Proof.
  intros p. split.
  - intros o.
    destruct (proj1 (channel_additions_are_logged Store.serve 0 world_left_team)
                (take 4 (trace o)) "u1" (Channel.Build "c1" "t1") "" ""
                (Some conflict_left_team) (drop 5 (trace o)) eq_refl)
      as (_ & _ & channelID & Hlast & Hyes & _).
    injection Hlast as <-. exact (Hyes eq_refl).
  - intros o.
    destruct (proj1 (channel_additions_are_logged Store.serve 0 world_channel_add_fails)
                (take 4 (trace o)) "u1" (Channel.Build "c1" "t1") "" ""
                (Some storage_down) (drop 5 (trace o)) eq_refl)
      as (_ & _ & channelID & _ & _ & Hno).
    apply Hno. discriminate.
Defined.
